(** * freefem_magic: an IPython magic that stages, runs and converts FreeFem++ scripts

    A shallow embedding of [freefem_magic.py].  The module is glue code around
    three kinds of effects: the file system, child processes and the notebook's
    output stream.  They are modelled by an explicit world that every operation
    threads through, together with the Python exceptions the code raises.

    The source is Python 2 (its indentation mixes tabs and spaces, which
    Python 3 refuses), so the output captured from a child process is a [str]
    and [str(x)] is the identity on it, while the cell that IPython hands to
    the magic is a [unicode] object. *)

From stdpp Require Import base option list gmap strings.

Local Open Scope string_scope.
Local Open Scope list_scope.

(** ** The world *)

(** A file system holds, for every file it knows, a regular file with its
    contents or a directory.  Its keys identify files; a path from the
    program reaches a key through the operating system's name resolution
    ([resolve] below), except for the paths [tempfile] hands out, which are
    absolute and are keys already. *)
Inductive node : Type :=
| File (content : string)
| Dir.

(** Every effect that leaves the interpreter is recorded, in order.  A
    [Wrote] is the net effect of one [with open(...) as fh: fh.write(...)]
    on the file: the contents it is left with. *)
Inductive event : Type :=
| Wrote (path content : string)      (* open(path, "w") or os.fdopen(fd, "w"); write *)
| Spawned (argv : list string)       (* subprocess.Popen(argv, ...).communicate() *)
| Printed (text : string)            (* print(text) *)
| MadeDir (path : string)            (* tempfile.mkdtemp *)
| MadeFile (path : string)           (* tempfile.mkstemp *)
| RemovedTree (path : string).       (* shutil.rmtree *)

Record World : Type := mkWorld {
  fs : gmap string node;
  trace : list event
}.

(** ** Exceptions *)

Inductive exn : Type :=
| IOError (msg : string)
| OSError (msg : string)
| NameError (msg : string)
| TypeError (msg : string)
| UnicodeEncodeError (msg : string)
| ExpatError (msg : string)
| FreeFemException (freefem_err_msg : string).

(** [str(e)].  [FreeFemException.__str__] returns [str(self.freefem_err_msg)];
    the built-in exceptions print their single argument. *)
Definition exn_str (e : exn) : string :=
  match e with
  | IOError msg | OSError msg | NameError msg | TypeError msg
  | UnicodeEncodeError msg | ExpatError msg => msg
  | FreeFemException freefem_err_msg => freefem_err_msg
  end.

(** ** Computations: state passing with exceptions *)

Inductive outcome (A : Type) : Type :=
| Return (a : A)
| Raise (e : exn).
Arguments Return {A} a.
Arguments Raise {A} e.

Definition M (A : Type) : Type := World → outcome A * World.

Definition ret {A} (a : A) : M A := λ w, (Return a, w).

Definition raise {A} (e : exn) : M A := λ w, (Raise e, w).

Definition bind {A B} (m : M A) (k : A → M B) : M B :=
  λ w, match m w with
       | (Return a, w') => k a w'
       | (Raise e, w') => (Raise e, w')
       end.

Declare Scope py_scope.
Delimit Scope py_scope with py.
Notation "x <- m ;; k" := (bind m (λ x, k))
  (at level 100, m at next level, right associativity) : py_scope.
Notation "m ;;; k" := (bind m (λ _, k))
  (at level 100, right associativity) : py_scope.
Local Open Scope py_scope.

(** [print(s)]. *)
Definition print (s : string) : M unit :=
  λ w, (Return (), mkWorld (fs w) (trace w ++ [Printed s])).

(** ** Python values the code tests, encodes or looks up *)

(** An option of the parsed command line is [None] when absent and a string
    otherwise; [if args.x:] holds for a non-empty string only. *)
Definition truthy (o : option string) : bool :=
  match o with
  | Some s => negb (String.eqb s "")
  | None => false
  end.

(** A code point that the [ascii] codec accepts.  The code points of a
    [unicode] object are modelled by the 256 values of [ascii]; the ones
    from 128 on stand for every code point the codec refuses. *)
Definition is_ascii (c : Ascii.ascii) : bool :=
  match c with
  | Ascii.Ascii _ _ _ _ _ _ _ b7 => negb b7
  end.

Fixpoint all_ascii (s : string) : bool :=
  match s with
  | EmptyString => true
  | String c s' => is_ascii c && all_ascii s'
  end.

(** What a Python 2 file object does with a [unicode] argument of [write]:
    it encodes it with the [ascii] codec, which gives the same characters as
    bytes or fails. *)
Definition encode_ascii (u : string) : option string :=
  if all_ascii u then Some u else None.

(** ** Names bound at module level *)

Definition module_globals : list string :=
  [ "os"; "shutil"; "subprocess"; "tempfile";
    "magics_class"; "line_magic"; "line_cell_magic"; "Magics";
    "argument"; "magic_arguments"; "parse_argstring";
    "Image"; "SVG"; "WImage"; "is_have_wand";
    "FreeFemException"; "TemporaryFreeFemFile"; "FreeFemMagic";
    "load_ipython_extension" ].

(** Reading a name that is neither local nor a parameter, in a position where
    it is appended to a [str].  No module-level name is bound to a string, so
    the concatenation fails with [TypeError] for a bound name; an unbound one
    raises [NameError] before the concatenation is attempted. *)
Definition load_global_str (name : string) : M string :=
  if bool_decide (name ∈ module_globals)
  then raise (TypeError ("cannot concatenate 'str' and '" +:+ name +:+ "' objects"))
  else raise (NameError ("global name '" +:+ name +:+ "' is not defined")).

(** What one child process did: its exit status and the two captured streams. *)
Record ProcResult : Type := mkProc {
  returncode : Z;
  stdout : string;
  stderr : string
}.

(** ** Concrete environments *)

(** Name resolution on a POSIX file system without symbolic links: a relative
    path starts from the working directory, empty and [.] components count
    for nothing and [..] steps back. *)
Definition slash : Ascii.ascii := Ascii.ascii_of_nat 47.

Fixpoint components (p : string) : list string :=
  match p with
  | EmptyString => [""]
  | String c p' =>
      if Ascii.eqb c slash then "" :: components p'
      else match components p' with
           | x :: xs => String c x :: xs
           | [] => [String c ""]
           end
  end.

Definition path_step (stack : list string) (comp : string) : list string :=
  if decide (comp = "" ∨ comp = ".") then stack
  else if decide (comp = "..") then removelast stack
  else stack ++ [comp].

Definition normalize (comps : list string) : list string :=
  fold_left path_step comps [].

Definition is_abs (p : string) : bool := String.prefix "/" p.

Fixpoint render (comps : list string) : string :=
  match comps with
  | [] => ""
  | comp :: rest => "/" +:+ comp +:+ render rest
  end.

Definition abspath_components (cwd p : string) : list string :=
  normalize (if is_abs p then components p else components cwd ++ components p).

Definition abspath (cwd p : string) : string :=
  match abspath_components cwd p with
  | [] => "/"
  | comps => render comps
  end.


(** A file system on which every open is granted. *)
Definition granted : string → gmap string node → option string := λ _ _, None.

(** A child that always ends the same way and touches no file. *)
Definition exec_const (r : ProcResult)
    : list string → gmap string node → ProcResult * gmap string node :=
  λ _ files, (r, files).

(** Tools that do their work: the converter leaves the image it was asked for
    (its sixth argument) and every child ends with status zero. *)
Definition exec_tools (resolve : string → string)
    : list string → gmap string node → ProcResult * gmap string node :=
  λ argv files,
    match argv with
    | [tool; _; _; _; _; output] =>
        if String.eqb tool "inkscape"
        then (mkProc 0 "Bitmap saved" "", <[resolve output := File "<svg/>"]> files)
        else (mkProc 0 "ok" "", files)
    | _ => (mkProc 0 "ok" "", files)
    end.

(** A name generator that is new on every file system: its names are longer
    than every path in use. *)
Fixpoint pad (n : nat) : string :=
  match n with
  | O => ""
  | S n' => "x" +:+ pad n'
  end.

Definition longest (files : gmap string node) : nat :=
  max_list (String.length <$> (map_to_list files).*1).

Definition long_name (suffix dir : string) (files : gmap string node) : string :=
  pad (S (longest files)).

Section FreeFemMagic.

(** ** The environment *)

(** The external binaries are black boxes: given the argument vector and the
    file system they find, they leave a result and a file system behind.  The
    tools are taken to be installed, so that [Popen] starts them. *)
Variable exec : list string → gmap string node → ProcResult * gmap string node.

(** [tempfile] draws the random part of a new name; the directory that
    [mkdtemp()] works in is [tempfile.gettempdir()]. *)
Variable gettempdir : string.
Variable temp_name : string → string → gmap string node → string.

(** The operating system's name resolution: the key of the file that a path
    names from the working directory of the process.  Several paths may name
    one file ([out.edp] and [./out.edp]). *)
Variable resolve : string → string.

(** Whatever else makes the operating system refuse to open a path for
    writing or for reading (a missing or unwritable parent directory, a
    protected file, a full disk), with the text of the error. *)
Variable open_w_error : string → gmap string node → option string.
Variable open_r_error : string → gmap string node → option string.

(** Whether [xml.dom.minidom.parseString] accepts a text. *)
Variable svg_parses : string → bool.

(** ** Primitive effects *)

(** [os.path.exists(p)]: true for files and for directories. *)
Definition path_exists (p : string) : M bool :=
  λ w, (Return (bool_decide (is_Some (fs w !! resolve p))), w).

(** [with open(p, "w") as fh: fh.write(u)].  Opening fails on a directory and
    wherever the operating system refuses; once open, the file is empty, and
    [write] stores the encoded text or fails to encode it, which leaves the
    file empty. *)
Definition open_write (p u : string) : M unit :=
  λ w, match fs w !! resolve p with
       | Some Dir => (Raise (IOError ("Is a directory: " +:+ p)), w)
       | _ =>
           match open_w_error p (fs w) with
           | Some msg => (Raise (IOError msg), w)
           | None =>
               match encode_ascii u with
               | Some bytes =>
                   (Return (),
                    mkWorld (<[resolve p := File bytes]> (fs w))
                            (trace w ++ [Wrote p bytes]))
               | None =>
                   (Raise (UnicodeEncodeError
                             "'ascii' codec can't encode character"),
                    mkWorld (<[resolve p := File ""]> (fs w))
                            (trace w ++ [Wrote p ""]))
               end
           end
       end.

(** [with open(p, mode) as f: data = f.read()], as the display objects of
    IPython do it when they are built from a file name. *)
Definition read_file (p : string) : M string :=
  λ w, match fs w !! resolve p with
       | Some (File data) =>
           match open_r_error p (fs w) with
           | Some msg => (Raise (IOError msg), w)
           | None => (Return data, w)
           end
       | Some Dir => (Raise (IOError ("Is a directory: " +:+ p)), w)
       | None => (Raise (IOError ("No such file or directory: " +:+ p)), w)
       end.

(** [proc = subprocess.Popen(argv, stdout=PIPE, stderr=PIPE)] followed by
    [proc.communicate()]: the child runs to completion. *)
Definition Popen_communicate (argv : list string) : M ProcResult :=
  λ w, let '(r, fs') := exec argv (fs w) in
       (Return r, mkWorld fs' (trace w ++ [Spawned argv])).

(** [p] lies below directory [d]. *)
Definition is_under (d p : string) : bool := String.prefix (d +:+ "/") p.

(** [os.path.join(dir, "tmp" + name + suffix)], the path [tempfile] settles on. *)
Definition temp_path (suffix dir : string) (files : gmap string node) : string :=
  dir +:+ "/" +:+ "tmp" +:+ temp_name suffix dir files +:+ suffix.

(** What [tempfile] guarantees: the path it settles on is new, so neither it
    nor anything below it is in the file system yet. *)
Hypothesis temp_path_new : ∀ suffix dir files p,
  p = temp_path suffix dir files ∨ is_under (temp_path suffix dir files) p = true →
  files !! p = None.

(** [tempfile.mkdtemp()]. *)
Definition mkdtemp : M string :=
  λ w, let d := temp_path "" gettempdir (fs w) in
       (Return d, mkWorld (<[d := Dir]> (fs w)) (trace w ++ [MadeDir d])).

(** [tempfile.mkstemp(suffix=suffix, dir=dir)]: an empty file is created; the
    descriptor returned with the path is identified with the file it is open on. *)
Definition mkstemp (suffix dir : string) : M (string * string) :=
  λ w, let f := temp_path suffix dir (fs w) in
       (Return (f, f), mkWorld (<[f := File ""]> (fs w)) (trace w ++ [MadeFile f])).

(** [with os.fdopen(fd, "w") as fh: fh.write(s)], on the descriptor of a file
    that [mkstemp] has just created and with a [str] to write: nothing is
    looked up and nothing is encoded. *)
Definition fdopen_write (fd s : string) : M unit :=
  λ w, (Return (), mkWorld (<[fd := File s]> (fs w)) (trace w ++ [Wrote fd s])).

(** [shutil.rmtree(d)]: a directory goes with everything below it; anything
    else raises and is left alone. *)
Definition rmtree (d : string) : M unit :=
  λ w, match fs w !! d with
       | Some Dir =>
           (Return (),
            mkWorld (filter (λ kv, kv.1 ≠ d ∧ is_under d kv.1 = false) (fs w))
                    (trace w ++ [RemovedTree d]))
       | _ => (Raise (OSError ("rmtree: " +:+ d)), w)
       end.

(** ** The [with] statement *)

(** [__exit__] receives the exception that ended the block, if any, and its
    result is tested for truth. *)
Class ContextManager (C V : Type) : Type := {
  __enter__ : C → M V;
  __exit__ : C → option exn → M bool
}.

(** [with mgr as v: block].  The result is [None] when an exception raised by
    the block was swallowed by [__exit__]. *)
Definition with_stmt {C V A} `{ContextManager C V}
    (mgr : C) (block : V → M A) : M (option A) :=
  λ w, match __enter__ mgr w with
       | (Raise e, w1) => (Raise e, w1)
       | (Return v, w1) =>
           match block v w1 with
           | (Return a, w2) =>
               match __exit__ mgr None w2 with
               | (Return _, w3) => (Return (Some a), w3)
               | (Raise e', w3) => (Raise e', w3)
               end
           | (Raise e, w2) =>
               match __exit__ mgr (Some e) w2 with
               | (Return suppress, w3) =>
                   if suppress then (Return None, w3) else (Raise e, w3)
               | (Raise e', w3) => (Raise e', w3)
               end
           end
       end.

(** ** class TemporaryFreeFemFile *)

Record TemporaryFreeFemFile : Type := mkTemporaryFreeFemFile {
  tmp_dir : string;
  ff_files : list string
}.

(** The constructor's argument is a [list] or anything else; the code it is
    written for passes a single [str] in the second case. *)
Inductive ff_codes_arg : Type :=
| CodeStr (ff_code : string)
| CodeList (ff_codes : list string).

(** [for ff_code in ff_codes: ...], with [self.ff_files] as accumulator. *)
Fixpoint stage_loop (tmp_dir : string) (ff_codes : list string)
    (ff_files : list string) : M (list string) :=
  match ff_codes with
  | [] => ret ff_files
  | ff_code :: rest =>
      fd_file <- mkstemp ".edp" tmp_dir ;;
      fdopen_write fd_file.1 ff_code ;;;
      stage_loop tmp_dir rest (ff_files ++ [fd_file.2])
  end.

Definition __init__ (ff_codes : ff_codes_arg) : M TemporaryFreeFemFile :=
  tmp_dir <- mkdtemp ;;
  let ff_files := [] in
  let ff_codes :=
    match ff_codes with
    | CodeList l => l
    | CodeStr s => [s]
    end in
  ff_files <- stage_loop tmp_dir ff_codes ff_files ;;
  ret (mkTemporaryFreeFemFile tmp_dir ff_files).

#[export] Instance TemporaryFreeFemFile_cm :
    ContextManager TemporaryFreeFemFile TemporaryFreeFemFile := {
  __enter__ self := ret self;
  __exit__ self _ := rmtree (tmp_dir self) ;;; ret false
}.

(** ** class FreeFemMagic *)

(** What the command returns for display: the object built from a file. *)
Inductive display_obj : Type :=
| Image (filename : string)
| SVG (filename : string).

(** [IPython.display.Image(filename=f)]: the constructor reads the file. *)
Definition new_Image (filename : string) : M display_obj :=
  data <- read_file filename ;;
  ret (Image filename).

(** [IPython.display.SVG(filename=f)]: the constructor reads the file and
    parses what it read. *)
Definition new_SVG (filename : string) : M display_obj :=
  data <- read_file filename ;;
  if svg_parses data then ret (SVG filename)
  else raise (ExpatError "not well-formed").

(** The [argparse] namespace of one invocation. *)
Record Namespace : Type := mkNamespace {
  args_ff_file : option string;
  args_display : option string;
  args_displaysvg : option string;
  args_write : option string
}.

Definition str_of (o : option string) : string := default "" o.

Definition convert_png (img_eps_file : string) : M string :=
  ex <- path_exists img_eps_file ;;
  if negb ex then
    ff_file <- load_global_str "ff_file" ;;
    raise (IOError ("File not found: " +:+ ff_file))
  else
    converter_proc <- Popen_communicate
      ["inkscape"; "-z"; "-f"; img_eps_file; "-e"; img_eps_file +:+ ".png"] ;;
    let ff_stdout := stdout converter_proc in
    if negb (returncode converter_proc =? 0)%Z then
      raise (FreeFemException ff_stdout)
    else
      print ff_stdout ;;;
      ret (img_eps_file +:+ ".png").

Definition convert_svg (img_eps_file : string) : M string :=
  ex <- path_exists img_eps_file ;;
  if negb ex then
    ff_file <- load_global_str "ff_file" ;;
    raise (IOError ("File not found: " +:+ ff_file))
  else
    converter_proc <- Popen_communicate
      ["inkscape"; "-z"; "-f"; img_eps_file; "-l"; img_eps_file +:+ ".svg"] ;;
    let ff_stdout := stdout converter_proc in
    if negb (returncode converter_proc =? 0)%Z then
      raise (FreeFemException ff_stdout)
    else
      print ff_stdout ;;;
      ret (img_eps_file +:+ ".svg").

Definition run_ff_file (ff_file : string) : M string :=
  ex <- path_exists ff_file ;;
  if negb ex then
    raise (IOError ("File not found: " +:+ ff_file))
  else
    ff_proc <- Popen_communicate
      ["FreeFem++"; "-nowait"; "-nw"; "-ne"; ff_file] ;;
    let ff_stdout := stdout ff_proc in
    if negb (returncode ff_proc =? 0)%Z then
      raise (FreeFemException ff_stdout)
    else
      print ff_stdout ;;;
      ret ff_stdout.

(** [freefem(self, line, cell=None)], after [args = parse_argstring(...)]. *)
Definition freefem (args : Namespace) (cell : option string)
    : M (option display_obj) :=
  let ff_file := "temp.edp" in
  ff_file <-
    match cell with
    | Some body =>
        let ff_file :=
          if truthy (args_write args)
          then str_of (args_write args) +:+ ".edp"
          else ff_file in
        open_write ff_file body ;;;
        ret ff_file
    | None => ret ff_file
    end ;;
  let ff_file :=
    if truthy (args_ff_file args) then str_of (args_ff_file args) else ff_file in
  std_out <- run_ff_file ff_file ;;
  if truthy (args_display args) then
    png <- convert_png (str_of (args_display args)) ;;
    image <- new_Image png ;;
    ret (Some image)
  else if truthy (args_displaysvg args) then
    svg <- convert_svg (str_of (args_displaysvg args)) ;;
    image <- new_SVG svg ;;
    ret (Some image)
  else
    ret None.

(** ** The specification's vocabulary *)

(** The three call sites of the External Process Runner. *)
Inductive runner : Type :=
| Interpreter    (* run_ff_file *)
| ToRaster       (* convert_png *)
| ToVector.      (* convert_svg *)

(** The argument template of each call site. *)
Definition runner_argv (op : runner) (path : string) : list string :=
  match op with
  | Interpreter => ["FreeFem++"; "-nowait"; "-nw"; "-ne"; path]
  | ToRaster => ["inkscape"; "-z"; "-f"; path; "-e"; path +:+ ".png"]
  | ToVector => ["inkscape"; "-z"; "-f"; path; "-l"; path +:+ ".svg"]
  end.

Definition run (op : runner) (path : string) : M string :=
  match op with
  | Interpreter => run_ff_file path
  | ToRaster => convert_png path
  | ToVector => convert_svg path
  end.

(** What a call site hands back once its child has exited with status zero. *)
Definition runner_value (op : runner) (path : string) (r : ProcResult) : string :=
  match op with
  | Interpreter => stdout r
  | ToRaster => path +:+ ".png"
  | ToVector => path +:+ ".svg"
  end.

(** A flag counts as given when [if args.flag:] holds. *)
Definition given (flag : option string) (value : string) : Prop :=
  flag = Some value ∧ value ≠ "".

(** Resolution order of the dispatcher, in the specification's words:
    the name a supplied body is persisted under ... *)
Definition script_candidate (args : Namespace) : string :=
  match args_write args with
  | Some root => if decide (root = "") then "temp.edp" else root +:+ ".edp"
  | None => "temp.edp"
  end.

(** ... and the script that is run: the positional file when given, else the
    candidate (which is the fixed temporary name when there is no body). *)
Definition resolved_script (args : Namespace) (cell : option string) : string :=
  match args_ff_file args with
  | Some file => if decide (file = "") then
                   match cell with Some _ => script_candidate args | None => "temp.edp" end
                 else file
  | None => match cell with Some _ => script_candidate args | None => "temp.edp" end
  end.

(** Persisting the body, if there is one. *)
Definition stage_cell (args : Namespace) (cell : option string) : M unit :=
  match cell with
  | Some body => open_write (script_candidate args) body
  | None => ret ()
  end.

(** The world once the body, if any, has been persisted, that is, when the
    write went through. *)
Definition staged (args : Namespace) (cell : option string) (w : World) : World :=
  match cell with
  | Some body =>
      mkWorld (<[resolve (script_candidate args) := File body]> (fs w))
              (trace w ++ [Wrote (script_candidate args) body])
  | None => w
  end.

(** The display step, in the specification's words: convert, then build the
    handle from the file the converter was asked for. *)
Definition show_raster (d : string) : M (option display_obj) :=
  _ <- convert_png d ;;
  image <- new_Image (d +:+ ".png") ;;
  ret (Some image).

Definition show_vector (s : string) : M (option display_obj) :=
  _ <- convert_svg s ;;
  image <- new_SVG (s +:+ ".svg") ;;
  ret (Some image).

Definition display_step (args : Namespace) : M (option display_obj) :=
  match args_display args, args_displaysvg args with
  | Some d, _ =>
      if decide (d = "") then
        match args_displaysvg args with
        | Some s => if decide (s = "") then ret None else show_vector s
        | None => ret None
        end
      else show_raster d
  | None, Some s => if decide (s = "") then ret None else show_vector s
  | None, None => ret None
  end.


(** A computation only ever extends the trace, and only by events in [P]. *)
Definition appends {A} (P : event → Prop) (m : M A) : Prop :=
  ∀ w, ∃ evs, trace (m w).2 = trace w ++ evs ∧ Forall P evs.

(** An effect of the child processes only, not of this module's own code. *)
Definition no_fs_event (e : event) : Prop :=
  match e with
  | Spawned _ | Printed _ => True
  | _ => False
  end.

(** A computation leaves whatever is stored under key [k] as it found it. *)
Definition keeps {A} (k : string) (m : M A) : Prop :=
  ∀ w, fs (m w).2 !! k = fs w !! k.

(** The child processes leave the file with key [k] alone. *)
Definition children_keep (k : string) : Prop :=
  ∀ argv files, (exec argv files).2 !! k = files !! k.

(** The argument vectors of the children spawned among [evs], in order. *)
Definition spawned_argvs (evs : list event) : list (list string) :=
  omap (λ e, match e with Spawned argv => Some argv | _ => None end) evs.

(** The children that one invocation is to spawn, read off the world it
    starts in: none when the body cannot be persisted or the script is not
    there; else the interpreter, and after an interpreter that ended with
    status zero the one converter the flags select, if its input is there. *)
Definition converter_plan (args : Namespace) (files : gmap string node)
    : list (list string) :=
  match args_display args, args_displaysvg args with
  | Some d, sv =>
      if decide (d = "") then
        match sv with
        | Some s =>
            if decide (s = "") then []
            else if bool_decide (is_Some (files !! resolve s))
                 then [runner_argv ToVector s] else []
        | None => []
        end
      else if bool_decide (is_Some (files !! resolve d))
           then [runner_argv ToRaster d] else []
  | None, Some s =>
      if decide (s = "") then []
      else if bool_decide (is_Some (files !! resolve s))
           then [runner_argv ToVector s] else []
  | None, None => []
  end.

Definition spawn_plan (args : Namespace) (cell : option string) (w : World)
    : list (list string) :=
  match stage_cell args cell w with
  | (Raise _, _) => []
  | (Return _, w1) =>
      let interp := runner_argv Interpreter (resolved_script args cell) in
      if bool_decide (is_Some (fs w1 !! resolve (resolved_script args cell)))
      then
        if decide (returncode (exec interp (fs w1)).1 = 0%Z)
        then interp :: converter_plan args (exec interp (fs w1)).2
        else [interp]
      else []
  end.

(** What staging may do to the outside world. *)
Definition staging_event (e : event) : Prop :=
  match e with
  | MadeDir _ | MadeFile _ | Wrote _ _ => True
  | _ => False
  end.

(** The namespace with every empty-valued option taken as absent. *)
Definition absent_if_empty (o : option string) : option string :=
  match o with
  | Some "" => None
  | _ => o
  end.

Definition without_empty_values (args : Namespace) : Namespace :=
  mkNamespace (absent_if_empty (args_ff_file args))
              (absent_if_empty (args_display args))
              (absent_if_empty (args_displaysvg args))
              (absent_if_empty (args_write args)).

(** * Properties *)

(** ** Auxiliary facts *)

Lemma truthy_given flag value : given flag value → truthy flag = true.
Proof.
  intros [-> Hne]. simpl. destruct (String.eqb_spec value ""); done.
Qed.

Lemma truthy_true flag :
  truthy flag = true → ∃ value, given flag value.
Proof.
  destruct flag as [s|]; simpl; [|done].
  destruct (String.eqb_spec s ""); [done|]. intros _. by exists s.
Qed.

Lemma truthy_false flag :
  truthy flag = false → flag = None ∨ flag = Some "".
Proof.
  destruct flag as [s|]; simpl; [|by left].
  destruct (String.eqb_spec s ""); [subst; by right | done].
Qed.

Lemma truthy_decide (o : option string) :
  truthy o = match o with
             | Some s => if decide (s = "") then false else true
             | None => false
             end.
Proof.
  destruct o as [s|]; simpl; [|done].
  destruct (String.eqb_spec s ""), (decide (s = "")); done.
Qed.

(** ** External Process Runner *)

(** A call site whose input path exists spawns its child once and then
    branches on the exit status alone. *)
Lemma run_spawned op path w :
  is_Some (fs w !! resolve path) →
  run op path w =
    let r := (exec (runner_argv op path) (fs w)).1 in
    let w1 := mkWorld (exec (runner_argv op path) (fs w)).2
                      (trace w ++ [Spawned (runner_argv op path)]) in
    if decide (returncode r = 0%Z)
    then (Return (runner_value op path r),
          mkWorld (fs w1) (trace w1 ++ [Printed (stdout r)]))
    else (Raise (FreeFemException (stdout r)), w1).
Proof.
  intros Hex.
  destruct op; unfold run, run_ff_file, convert_png, convert_svg, bind,
    path_exists, Popen_communicate, print, raise, ret; simpl;
    rewrite bool_decide_eq_true_2 by done; simpl;
    destruct (exec _ (fs w)) as [r files']; simpl;
    destruct (Z.eqb_spec (returncode r) 0), (decide (returncode r = 0%Z));
    done.
Qed.

(** A call site whose input path is missing raises before anything is
    spawned; only [run_ff_file] can name the path in its message. *)
Lemma run_missing op path w :
  fs w !! resolve path = None →
  run op path w =
    (Raise match op with
           | Interpreter => IOError ("File not found: " +:+ path)
           | ToRaster | ToVector =>
               NameError "global name 'ff_file' is not defined"
           end, w).
Proof.
  intros Hno.
  destruct op; unfold run, run_ff_file, convert_png, convert_svg, bind,
    path_exists, raise; simpl;
    rewrite bool_decide_eq_false_2 by (rewrite Hno; by intros [? ?]); done.
Qed.

(** C1.  Whenever one of the three call sites has spawned its child and the
    child ends with a non-zero status, the call raises [FreeFemException], and
    the message of that exception is the text captured from the child's
    standard output, whatever was captured from standard error. *)
Theorem C1_nonzero_exit_raises_stdout op path w r files' :
  is_Some (fs w !! resolve path) →
  exec (runner_argv op path) (fs w) = (r, files') →
  returncode r ≠ 0%Z →
  ∃ e, run op path w =
         (Raise e, mkWorld files' (trace w ++ [Spawned (runner_argv op path)]))
       ∧ e = FreeFemException (stdout r)
       ∧ exn_str e = stdout r.
Proof.
  intros Hex Hrun Hrc. exists (FreeFemException (stdout r)).
  rewrite run_spawned by done. rewrite Hrun. simpl.
  destruct (decide (returncode r = 0%Z)); done.
Qed.

(** C2, on the code.  With a missing input path no call site spawns a child,
    but only [run_ff_file] raises the [IOError] that names the path: the two
    converters build their message from [ff_file], which is not bound in
    their scope, and so end in [NameError]. *)
Theorem C2_converters_raise_NameError :
  let w := mkWorld ∅ [] in
  run_ff_file "missing.eps" w =
    (Raise (IOError "File not found: missing.eps"), w)
  ∧ convert_png "missing.eps" w =
    (Raise (NameError "global name 'ff_file' is not defined"), w)
  ∧ convert_svg "missing.eps" w =
    (Raise (NameError "global name 'ff_file' is not defined"), w).
Proof.
  intros w. split_and!.
  - apply (run_missing Interpreter). apply lookup_empty.
  - apply (run_missing ToRaster). apply lookup_empty.
  - apply (run_missing ToVector). apply lookup_empty.
Qed.

(** C7, as the code has it.  When the child ends with status zero the call
    raises nothing and prints the captured standard output; [run_ff_file]
    returns that output, while [convert_png] and [convert_svg] return the
    path of the image they asked the converter to produce. *)
Theorem C7_zero_exit_prints_and_returns op path w r files' :
  is_Some (fs w !! resolve path) →
  exec (runner_argv op path) (fs w) = (r, files') →
  returncode r = 0%Z →
  run op path w =
    (Return match op with
            | Interpreter => stdout r
            | ToRaster => path +:+ ".png"
            | ToVector => path +:+ ".svg"
            end,
     mkWorld files'
       (trace w ++ [Spawned (runner_argv op path)] ++ [Printed (stdout r)])).
Proof.
  intros Hex Hrun Hrc. rewrite run_spawned by done. rewrite Hrun. simpl.
  destruct (decide (returncode r = 0%Z)); [|done].
  rewrite <- (assoc_L (++)). by destruct op.
Qed.

(** ** Traces grow by appending *)

Lemma appends_ret {A} P (a : A) : appends P (ret a).
Proof. intros w. exists []. by rewrite app_nil_r. Qed.

Lemma appends_raise {A} P e : appends P (@raise A e).
Proof. intros w. exists []. by rewrite app_nil_r. Qed.

Lemma appends_bind {A B} P (m : M A) (k : A → M B) :
  appends P m → (∀ a, appends P (k a)) → appends P (bind m k).
Proof.
  intros Hm Hk w. unfold bind. destruct (Hm w) as (evs & Ht & HP).
  destruct (m w) as [[a|e] w1]; simpl in *.
  - destruct (Hk a w1) as (evs' & Ht' & HP'). exists (evs ++ evs').
    rewrite Ht', Ht, (assoc_L (++)). split; [done|]. by apply Forall_app.
  - by exists evs.
Qed.

Lemma appends_path_exists P p : appends P (path_exists p).
Proof. intros w. exists []. by rewrite app_nil_r. Qed.

Lemma appends_load_global_str P name : appends P (load_global_str name).
Proof.
  unfold load_global_str. case_bool_decide; apply appends_raise.
Qed.

Lemma appends_print P s : P (Printed s) → appends P (print s).
Proof. intros HP w. exists [Printed s]. split; [done|]. by repeat constructor. Qed.

Lemma appends_Popen_communicate P argv :
  P (Spawned argv) → appends P (Popen_communicate argv).
Proof.
  intros HP w. exists [Spawned argv]. unfold Popen_communicate.
  destruct (exec argv (fs w)). split; [done|]. by repeat constructor.
Qed.

Lemma appends_read_file P p : appends P (read_file p).
Proof.
  intros w. exists []. rewrite app_nil_r. unfold read_file.
  destruct (fs w !! resolve p) as [[data|]|]; [|done..].
  by destruct (open_r_error p (fs w)).
Qed.

Lemma appends_new_Image P f : appends P (new_Image f).
Proof.
  apply appends_bind; [apply appends_read_file|]. intros _. apply appends_ret.
Qed.

Lemma appends_new_SVG P f : appends P (new_SVG f).
Proof.
  apply appends_bind; [apply appends_read_file|]. intros data.
  destruct (svg_parses data); [apply appends_ret | apply appends_raise].
Qed.

Lemma appends_run op path : appends no_fs_event (run op path).
Proof.
  destruct op; unfold run, run_ff_file, convert_png, convert_svg;
    (apply appends_bind; [apply appends_path_exists|]); intros [];
    simpl;
    repeat first
      [ apply appends_raise | apply appends_ret
      | apply appends_load_global_str
      | apply appends_print; done
      | apply appends_Popen_communicate; done
      | apply appends_bind; [|intros ?]
      | match goal with |- appends _ (if ?b then _ else _) => destruct b end ].
Qed.

(** ** Persisting the body *)

Lemma encode_ascii_Some u bytes : encode_ascii u = Some bytes → bytes = u.
Proof. unfold encode_ascii. destruct (all_ascii u); congruence. Qed.

(** The ways [open_write] can end. *)
Lemma open_write_returns p u w w1 :
  open_write p u w = (Return (), w1) →
  fs w !! resolve p ≠ Some Dir
  ∧ open_w_error p (fs w) = None
  ∧ all_ascii u = true
  ∧ w1 = mkWorld (<[resolve p := File u]> (fs w)) (trace w ++ [Wrote p u]).
Proof.
  unfold open_write, encode_ascii.
  destruct (fs w !! resolve p) as [[c|]|] eqn:Hp;
    destruct (open_w_error p (fs w)); try done;
    destruct (all_ascii u); try done; intros [= <-]; done.
Qed.

Lemma open_write_raises p u w e w1 :
  open_write p u w = (Raise e, w1) →
  (w1 = w ∧ ∃ msg, e = IOError msg)
  ∨ (all_ascii u = false
     ∧ (∃ msg, e = UnicodeEncodeError msg)
     ∧ w1 = mkWorld (<[resolve p := File ""]> (fs w)) (trace w ++ [Wrote p ""])).
Proof.
  unfold open_write, encode_ascii.
  destruct (fs w !! resolve p) as [[c|]|] eqn:Hp;
    destruct (open_w_error p (fs w)); try (intros [= <- <-]; left; eauto);
    destruct (all_ascii u); try done; intros [= <- <-]; right; eauto.
Qed.

(** When nothing stands in the way, the write goes through. *)
Lemma open_write_granted p u w :
  fs w !! resolve p ≠ Some Dir →
  open_w_error p (fs w) = None →
  all_ascii u = true →
  open_write p u w =
    (Return (), mkWorld (<[resolve p := File u]> (fs w)) (trace w ++ [Wrote p u])).
Proof.
  intros Hd He Ha. unfold open_write, encode_ascii. rewrite He, Ha.
  by destruct (fs w !! resolve p) as [[c|]|].
Qed.

Lemma stage_cell_returns args cell w w1 :
  stage_cell args cell w = (Return (), w1) → w1 = staged args cell w.
Proof.
  destruct cell as [body|]; simpl.
  - by intros (_ & _ & _ & ->)%open_write_returns.
  - by intros [= <-].
Qed.



(** ** Command Dispatcher *)

(** A converter that returns hands back the name it asked the output under. *)
Lemma run_returns op path w v w' :
  run op path w = (Return v, w') →
  v = runner_value op path (exec (runner_argv op path) (fs w)).1.
Proof.
  destruct (fs w !! resolve path) as [n|] eqn:Hp.
  - rewrite run_spawned by (rewrite Hp; eauto). simpl.
    case_decide; congruence.
  - rewrite run_missing by done. congruence.
Qed.

Lemma bind_convert_png {B} d (k : string → M B) w :
  bind (convert_png d) k w = bind (convert_png d) (λ _, k (d +:+ ".png")) w.
Proof.
  unfold bind. destruct (convert_png d w) as [[v|e] w'] eqn:Hc; [|done].
  by rewrite (run_returns ToRaster d w v w' Hc).
Qed.

Lemma bind_convert_svg {B} d (k : string → M B) w :
  bind (convert_svg d) k w = bind (convert_svg d) (λ _, k (d +:+ ".svg")) w.
Proof.
  unfold bind. destruct (convert_svg d w) as [[v|e] w'] eqn:Hc; [|done].
  by rewrite (run_returns ToVector d w v w' Hc).
Qed.

(** The tail of [freefem] is the display step of the specification. *)
Lemma freefem_display args w :
  (if truthy (args_display args) then
     png <- convert_png (str_of (args_display args)) ;;
     image <- new_Image png ;;
     ret (Some image)
   else if truthy (args_displaysvg args) then
     svg <- convert_svg (str_of (args_displaysvg args)) ;;
     image <- new_SVG svg ;;
     ret (Some image)
   else ret None) w = display_step args w.
Proof.
  rewrite !truthy_decide. unfold display_step, show_raster, show_vector, str_of.
  destruct (args_display args) as [d|], (args_displaysvg args) as [s|];
    simpl; repeat case_decide;
    rewrite ?bind_convert_png, ?bind_convert_svg; done.
Qed.

(** [freefem] persists the body, runs the resolved script and ends with the
    display step. *)
Lemma freefem_unfold args cell w :
  freefem args cell w =
    (_ <- stage_cell args cell ;;
     _ <- run_ff_file (resolved_script args cell) ;;
     display_step args) w.
Proof.
  unfold freefem.
  set (tail := if truthy (args_display args) then _ else _).
  assert (Htail : ∀ w', tail w' = display_step args w')
    by apply freefem_display.
  clearbody tail. rewrite !truthy_decide.
  unfold stage_cell, resolved_script, script_candidate, str_of, bind.
  destruct cell as [body|], (args_write args) as [root|],
    (args_ff_file args) as [file|]; simpl; repeat case_decide; simpl;
    try (destruct (open_write _ _ _) as [[[]|e0] w0]; [|done]); simpl;
    (destruct (run_ff_file _ _) as [[out|e] w1]; [apply Htail | done]).
Qed.

(** Once the body is persisted the command is the interpreter followed by
    the display step; when it cannot be persisted the command ends there. *)
Lemma freefem_staged args cell w :
  stage_cell args cell w = (Return (), staged args cell w) →
  freefem args cell w =
    (_ <- run_ff_file (resolved_script args cell) ;; display_step args)
      (staged args cell w).
Proof. intros Hs. rewrite freefem_unfold. unfold bind at 1. by rewrite Hs. Qed.

Lemma freefem_not_staged args cell w e w1 :
  stage_cell args cell w = (Raise e, w1) → freefem args cell w = (Raise e, w1).
Proof. intros Hs. rewrite freefem_unfold. unfold bind at 1. by rewrite Hs. Qed.

Lemma appends_display_step args : appends no_fs_event (display_step args).
Proof.
  unfold display_step, show_raster, show_vector.
  destruct (args_display args) as [d|], (args_displaysvg args) as [s|];
    repeat case_decide;
    repeat first
      [ apply appends_ret
      | apply (appends_run ToRaster) | apply (appends_run ToVector)
      | apply appends_new_Image | apply appends_new_SVG
      | apply appends_bind; [|intros ?] ].
Qed.


Lemma given_candidate args root :
  given (args_write args) root → script_candidate args = root +:+ ".edp".
Proof.
  intros [Hw Hne]. unfold script_candidate. rewrite Hw. by case_decide.
Qed.

Lemma given_resolved args cell file :
  given (args_ff_file args) file → resolved_script args cell = file.
Proof.
  intros [Hf Hne]. unfold resolved_script. rewrite Hf. by case_decide.
Qed.

Lemma not_given_resolved args cell :
  truthy (args_ff_file args) = false →
  resolved_script args cell =
    match cell with Some _ => script_candidate args | None => "temp.edp" end.
Proof.
  intros [Hf|Hf]%truthy_false; unfold resolved_script; rewrite Hf; done.
Qed.

(** A flag passed with an empty value ([--write=]) is not given in the
    sense of the code: the candidate stays [temp.edp], and an empty display
    path selects no conversion. *)
Lemma empty_value_is_not_given args :
  (args_write args = Some "" → script_candidate args = "temp.edp")
  ∧ (args_display args = Some "" → args_displaysvg args = None →
     ∀ w, display_step args w = (Return None, w)).
Proof.
  split.
  - intros Hw. unfold script_candidate. by rewrite Hw.
  - intros Hd Hs w. unfold display_step. by rewrite Hd, Hs.
Qed.

Lemma keeps_bind {A B} k (m : M A) (f : A → M B) :
  keeps k m → (∀ a, keeps k (f a)) → keeps k (bind m f).
Proof.
  intros Hm Hf w. unfold bind. specialize (Hm w).
  destruct (m w) as [[a|e] w1]; simpl in *; [|done].
  by rewrite Hf.
Qed.

Lemma keeps_run k op path : children_keep k → keeps k (run op path).
Proof.
  intros Hc w. destruct (fs w !! resolve path) as [n|] eqn:Hp.
  - rewrite run_spawned by (rewrite Hp; eauto). simpl.
    case_decide; simpl; apply Hc.
  - by rewrite run_missing.
Qed.

Lemma keeps_read_file k p : keeps k (read_file p).
Proof.
  intros w. unfold read_file.
  destruct (fs w !! resolve p) as [[data|]|]; [|done..].
  by destruct (open_r_error p (fs w)).
Qed.

Lemma keeps_new_Image k f : keeps k (new_Image f).
Proof. apply keeps_bind; [apply keeps_read_file|]. done. Qed.

Lemma keeps_new_SVG k f : keeps k (new_SVG f).
Proof.
  apply keeps_bind; [apply keeps_read_file|]. intros data.
  by destruct (svg_parses data).
Qed.

Lemma keeps_display_step k args :
  children_keep k → keeps k (display_step args).
Proof.
  intros Hc. unfold display_step, show_raster, show_vector.
  destruct (args_display args) as [d|], (args_displaysvg args) as [s|];
    repeat case_decide;
    repeat first
      [ done
      | apply (keeps_run k ToRaster); done
      | apply (keeps_run k ToVector); done
      | apply keeps_new_Image | apply keeps_new_SVG
      | apply keeps_bind; [|intros ?] ].
Qed.


Lemma freefem_keeps k args cell w :
  children_keep k →
  fs (freefem args cell w).2 !! k = fs (stage_cell args cell w).2 !! k.
Proof.
  intros Hc. rewrite freefem_unfold. unfold bind at 1.
  destruct (stage_cell args cell w) as [[[]|e] w1]; simpl; [|done].
  apply (keeps_bind k (run Interpreter _)).
  - by apply keeps_run.
  - intros _. by apply keeps_display_step.
Qed.

(** Once the body is persisted and the resolved script is there, the
    interpreter is the first thing spawned. *)
Lemma freefem_spawns_interpreter args cell w :
  stage_cell args cell w = (Return (), staged args cell w) →
  is_Some (fs (staged args cell w) !! resolve (resolved_script args cell)) →
  ∃ rest,
    trace (freefem args cell w).2 =
      trace (staged args cell w)
        ++ Spawned (runner_argv Interpreter (resolved_script args cell)) :: rest
    ∧ Forall no_fs_event rest.
Proof.
  intros Hs Hex. rewrite freefem_staged by done. unfold bind.
  change (run_ff_file ?p) with (run Interpreter p).
  rewrite run_spawned by done. simpl. case_decide; simpl.
  - match goal with |- context [display_step args ?w0] =>
      destruct (appends_display_step args w0) as (evs & Ht & HP);
      destruct (display_step args w0) as [o w2] end.
    simpl in *. eexists (Printed _ :: evs). rewrite Ht.
    rewrite <- !(assoc_L (++)). split; [reflexivity|]. by constructor.
  - by exists [].
Qed.

Lemma freefem_missing_script args cell w :
  stage_cell args cell w = (Return (), staged args cell w) →
  fs (staged args cell w) !! resolve (resolved_script args cell) = None →
  freefem args cell w =
    (Raise (IOError ("File not found: " +:+ resolved_script args cell)),
     staged args cell w).
Proof.
  intros Hs Hno. rewrite freefem_staged by done. unfold bind.
  change (run_ff_file ?p) with (run Interpreter p).
  by rewrite run_missing.
Qed.

(** What building the handle from the converted file does. *)
Lemma new_Image_found f w data :
  fs w !! resolve f = Some (File data) → open_r_error f (fs w) = None →
  new_Image f w = (Return (Image f), w).
Proof.
  intros Hf He. unfold new_Image, bind, read_file. by rewrite Hf, He.
Qed.

Lemma new_Image_missing f w :
  fs w !! resolve f = None → ∃ msg, new_Image f w = (Raise (IOError msg), w).
Proof.
  intros Hf. unfold new_Image, bind, read_file. rewrite Hf. eauto.
Qed.

Lemma new_SVG_found f w data :
  fs w !! resolve f = Some (File data) → open_r_error f (fs w) = None →
  svg_parses data = true →
  new_SVG f w = (Return (SVG f), w).
Proof.
  intros Hf He Hp. unfold new_SVG, bind, read_file. by rewrite Hf, He, Hp.
Qed.

Lemma new_SVG_missing f w :
  fs w !! resolve f = None → ∃ msg, new_SVG f w = (Raise (IOError msg), w).
Proof.
  intros Hf. unfold new_SVG, bind, read_file. rewrite Hf. eauto.
Qed.

(** After an interpreter step that returned, the command is its display step. *)
Lemma freefem_after_interpreter args cell w out w1 :
  (_ <- stage_cell args cell ;; run_ff_file (resolved_script args cell)) w
    = (Return out, w1) →
  freefem args cell w = display_step args w1.
Proof.
  rewrite freefem_unfold. unfold bind.
  destruct (stage_cell args cell w) as [[[]|e] w0]; [|done].
  destruct (run_ff_file _ w0) as [[o|e] w2]; [|done].
  by intros [= _ <-].
Qed.

Lemma display_step_raster args d :
  given (args_display args) d → ∀ w, display_step args w = show_raster d w.
Proof.
  intros [Hd Hne] w. unfold display_step. rewrite Hd. by case_decide.
Qed.

Lemma display_step_vector args s :
  truthy (args_display args) = false → given (args_displaysvg args) s →
  ∀ w, display_step args w = show_vector s w.
Proof.
  intros [Hd|Hd]%truthy_false [Hs Hne] w; unfold display_step;
    rewrite Hd, Hs; repeat case_decide; done.
Qed.

Lemma display_step_none args :
  truthy (args_display args) = false → truthy (args_displaysvg args) = false →
  ∀ w, display_step args w = (Return None, w).
Proof.
  intros [Hd|Hd]%truthy_false [Hs|Hs]%truthy_false w; unfold display_step;
    rewrite Hd, Hs; repeat case_decide; done.
Qed.


(** The three ways a conversion step can go. *)
Lemma show_raster_converted d w :
  is_Some (fs w !! resolve d) →
  returncode (exec (runner_argv ToRaster d) (fs w)).1 = 0%Z →
  show_raster d w =
    (image <- new_Image (d +:+ ".png") ;; ret (Some image))
      (mkWorld (exec (runner_argv ToRaster d) (fs w)).2
         (trace w ++ [Spawned (runner_argv ToRaster d);
                      Printed (stdout (exec (runner_argv ToRaster d) (fs w)).1)])).
Proof.
  intros Hex Hrc. unfold show_raster. unfold bind at 1.
  change (convert_png d) with (run ToRaster d).
  rewrite run_spawned by done. simpl. case_decide; [|done].
  by rewrite <- (assoc_L (++)).
Qed.

Lemma show_vector_converted s w :
  is_Some (fs w !! resolve s) →
  returncode (exec (runner_argv ToVector s) (fs w)).1 = 0%Z →
  show_vector s w =
    (image <- new_SVG (s +:+ ".svg") ;; ret (Some image))
      (mkWorld (exec (runner_argv ToVector s) (fs w)).2
         (trace w ++ [Spawned (runner_argv ToVector s);
                      Printed (stdout (exec (runner_argv ToVector s) (fs w)).1)])).
Proof.
  intros Hex Hrc. unfold show_vector. unfold bind at 1.
  change (convert_svg s) with (run ToVector s).
  rewrite run_spawned by done. simpl. case_decide; [|done].
  by rewrite <- (assoc_L (++)).
Qed.

Lemma show_raster_failed d w :
  is_Some (fs w !! resolve d) →
  returncode (exec (runner_argv ToRaster d) (fs w)).1 ≠ 0%Z →
  show_raster d w =
    (Raise (FreeFemException (stdout (exec (runner_argv ToRaster d) (fs w)).1)),
     mkWorld (exec (runner_argv ToRaster d) (fs w)).2
       (trace w ++ [Spawned (runner_argv ToRaster d)])).
Proof.
  intros Hex Hrc. unfold show_raster. unfold bind at 1.
  change (convert_png d) with (run ToRaster d).
  rewrite run_spawned by done. simpl. by case_decide.
Qed.

Lemma show_vector_failed s w :
  is_Some (fs w !! resolve s) →
  returncode (exec (runner_argv ToVector s) (fs w)).1 ≠ 0%Z →
  show_vector s w =
    (Raise (FreeFemException (stdout (exec (runner_argv ToVector s) (fs w)).1)),
     mkWorld (exec (runner_argv ToVector s) (fs w)).2
       (trace w ++ [Spawned (runner_argv ToVector s)])).
Proof.
  intros Hex Hrc. unfold show_vector. unfold bind at 1.
  change (convert_svg s) with (run ToVector s).
  rewrite run_spawned by done. simpl. by case_decide.
Qed.

Lemma show_raster_missing d w :
  fs w !! resolve d = None →
  show_raster d w =
    (Raise (NameError "global name 'ff_file' is not defined"), w).
Proof.
  intros Hno. unfold show_raster. unfold bind at 1.
  change (convert_png d) with (run ToRaster d). by rewrite run_missing.
Qed.

Lemma show_vector_missing s w :
  fs w !! resolve s = None →
  show_vector s w =
    (Raise (NameError "global name 'ff_file' is not defined"), w).
Proof.
  intros Hno. unfold show_vector. unfold bind at 1.
  change (convert_svg s) with (run ToVector s). by rewrite run_missing.
Qed.

(** C5.  After an interpreter step that returned.  With the display flag
    given, whatever [displaysvg] holds, the raster conversion runs on that
    path: the converter is spawned with [-e <path>.png], and when it ends
    with status zero its output is printed and the command returns the
    [Image] built from [<path>.png]; nothing else is spawned.  Otherwise,
    with the displaysvg flag given, the same happens with [-l <path>.svg] and
    an [SVG].  With neither flag, the command returns nothing.  A path that
    names no file, a converter that ends with another status, and an image
    file that is not there to build the handle from, each end the command
    with an exception instead. *)
Theorem C5_display_selection args cell w out w1 :
  (_ <- stage_cell args cell ;; run_ff_file (resolved_script args cell)) w
    = (Return out, w1) →
  (∀ d, given (args_display args) d →
     let argv := ["inkscape"; "-z"; "-f"; d; "-e"; d +:+ ".png"] in
     let r := (exec argv (fs w1)).1 in
     let files2 := (exec argv (fs w1)).2 in
     let w2 := mkWorld files2 (trace w1 ++ [Spawned argv; Printed (stdout r)]) in
     (is_Some (fs w1 !! resolve d) → returncode r = 0%Z →
        (∀ data, files2 !! resolve (d +:+ ".png") = Some (File data) →
                 open_r_error (d +:+ ".png") files2 = None →
                 freefem args cell w =
                   (Return (Some (Image (d +:+ ".png"))), w2))
        ∧ (files2 !! resolve (d +:+ ".png") = None →
           ∃ msg, freefem args cell w = (Raise (IOError msg), w2)))
     ∧ (is_Some (fs w1 !! resolve d) → returncode r ≠ 0%Z →
        freefem args cell w =
          (Raise (FreeFemException (stdout r)),
           mkWorld files2 (trace w1 ++ [Spawned argv])))
     ∧ (fs w1 !! resolve d = None →
        freefem args cell w =
          (Raise (NameError "global name 'ff_file' is not defined"), w1)))
  ∧ (truthy (args_display args) = false →
     ∀ s, given (args_displaysvg args) s →
     let argv := ["inkscape"; "-z"; "-f"; s; "-l"; s +:+ ".svg"] in
     let r := (exec argv (fs w1)).1 in
     let files2 := (exec argv (fs w1)).2 in
     let w2 := mkWorld files2 (trace w1 ++ [Spawned argv; Printed (stdout r)]) in
     (is_Some (fs w1 !! resolve s) → returncode r = 0%Z →
        (∀ data, files2 !! resolve (s +:+ ".svg") = Some (File data) →
                 open_r_error (s +:+ ".svg") files2 = None →
                 svg_parses data = true →
                 freefem args cell w =
                   (Return (Some (SVG (s +:+ ".svg"))), w2))
        ∧ (files2 !! resolve (s +:+ ".svg") = None →
           ∃ msg, freefem args cell w = (Raise (IOError msg), w2)))
     ∧ (is_Some (fs w1 !! resolve s) → returncode r ≠ 0%Z →
        freefem args cell w =
          (Raise (FreeFemException (stdout r)),
           mkWorld files2 (trace w1 ++ [Spawned argv])))
     ∧ (fs w1 !! resolve s = None →
        freefem args cell w =
          (Raise (NameError "global name 'ff_file' is not defined"), w1)))
  ∧ (truthy (args_display args) = false →
     truthy (args_displaysvg args) = false →
     freefem args cell w = (Return None, w1)).
Proof.
  intros Hstep.
  rewrite (freefem_after_interpreter _ _ _ _ _ Hstep). split_and!.
  - intros d Hd. simpl. rewrite (display_step_raster _ _ Hd). split_and!.
    + intros Hex Hrc. rewrite (show_raster_converted d w1 Hex Hrc). split.
      * intros data Hf He. unfold bind.
        by rewrite (new_Image_found _ _ data).
      * intros Hf. unfold bind.
        match goal with |- context [new_Image ?f ?w0] =>
          destruct (new_Image_missing f w0) as [msg Hm]; [done|] end.
        rewrite Hm. eauto.
    + intros Hex Hrc. by rewrite (show_raster_failed d w1 Hex Hrc).
    + intros Hno. by rewrite show_raster_missing.
  - intros Hnd s Hs. simpl. rewrite (display_step_vector _ _ Hnd Hs).
    split_and!.
    + intros Hex Hrc. rewrite (show_vector_converted s w1 Hex Hrc). split.
      * intros data Hf He Hp. unfold bind.
        by rewrite (new_SVG_found _ _ data).
      * intros Hf. unfold bind.
        match goal with |- context [new_SVG ?f ?w0] =>
          destruct (new_SVG_missing f w0) as [msg Hm]; [done|] end.
        rewrite Hm. eauto.
    + intros Hex Hrc. by rewrite (show_vector_failed s w1 Hex Hrc).
    + intros Hno. by rewrite show_vector_missing.
  - intros Hnd Hns. by apply display_step_none.
Qed.

(** C6, as the code has it.  With a cell body, [--write=out] and no
    positional [ff_file], the body is written to [out.edp] first and the
    interpreter is then spawned with [out.edp] as its script argument; the
    dispatcher touches the file no further, so that [out.edp] holds exactly
    the body afterwards, the child processes leaving it alone.  When
    [out.edp] cannot be opened or the body cannot be encoded, that error ends
    the command and nothing is spawned. *)
Theorem C6_write_out_without_positional args body w :
  args_write args = Some "out" →
  truthy (args_ff_file args) = false →
  (∀ w1, open_write "out.edp" body w = (Return (), w1) →
     fs w1 !! resolve "out.edp" = Some (File body)
     ∧ (∃ rest,
          trace (freefem args (Some body) w).2 =
            trace w ++ Wrote "out.edp" body
              :: Spawned ["FreeFem++"; "-nowait"; "-nw"; "-ne"; "out.edp"]
              :: rest
          ∧ Forall no_fs_event rest)
     ∧ (children_keep (resolve "out.edp") →
        fs (freefem args (Some body) w).2 !! resolve "out.edp"
          = Some (File body)))
  ∧ (∀ e w1, open_write "out.edp" body w = (Raise e, w1) →
       freefem args (Some body) w = (Raise e, w1)
       ∧ spawned_argvs (drop (length (trace w)) (trace w1)) = []).
Proof.
  intros Hw Hf.
  assert (Hc : script_candidate args = "out.edp").
  { unfold script_candidate. by rewrite Hw. }
  assert (Hr : resolved_script args (Some body) = "out.edp").
  { by rewrite not_given_resolved. }
  assert (Hcell : stage_cell args (Some body) w = open_write "out.edp" body w).
  { simpl. by rewrite Hc. }
  split.
  - intros w1 Hopen. rewrite <- Hcell in Hopen.
    pose proof (stage_cell_returns _ _ _ _ Hopen) as ->.
    assert (Hfile : fs (staged args (Some body) w) !! resolve "out.edp"
                    = Some (File body)).
    { simpl. by rewrite Hc, lookup_insert_eq. }
    split_and!.
    + done.
    + destruct (freefem_spawns_interpreter args (Some body) w Hopen)
        as (rest & Ht & HP).
      { rewrite Hr, Hfile. eauto. }
      exists rest. rewrite Ht, Hr. simpl. rewrite Hc.
      by rewrite <- (assoc_L (++)).
    + intros Hk. rewrite freefem_keeps by done. by rewrite Hopen.
  - intros e w1 Hopen. split.
    + apply freefem_not_staged. by rewrite Hcell.
    + apply open_write_raises in Hopen as [[-> _]|(_ & _ & ->)]; simpl.
      * by rewrite drop_all.
      * by rewrite drop_app_length.
Qed.

(** C10.  With a cell body and a positional [ff_file] both given, the body is
    still written to the candidate path ([temp.edp], or [<write-root>.edp]
    when the write flag was given) before the positional argument takes
    over: that file now holds the body, and the interpreter runs the
    positional file, or the command raises the [IOError] naming it when the
    positional path names no file.  When the candidate cannot be opened or
    the body cannot be encoded, that error ends the command. *)
Theorem C10_body_written_despite_positional args body file w :
  given (args_ff_file args) file →
  let candidate := script_candidate args in
  (truthy (args_write args) = false → candidate = "temp.edp")
  ∧ (∀ root, given (args_write args) root → candidate = root +:+ ".edp")
  ∧ (∀ w1, open_write candidate body w = (Return (), w1) →
       fs w1 !! resolve candidate = Some (File body)
       ∧ trace w1 = trace w ++ [Wrote candidate body]
       ∧ freefem args (Some body) w =
           (_ <- run_ff_file file ;; display_step args) w1
       ∧ (is_Some (fs w1 !! resolve file) →
          ∃ rest, trace (freefem args (Some body) w).2 =
                    trace w ++ Wrote candidate body
                      :: Spawned ["FreeFem++"; "-nowait"; "-nw"; "-ne"; file]
                      :: rest)
       ∧ (fs w1 !! resolve file = None →
          freefem args (Some body) w =
            (Raise (IOError ("File not found: " +:+ file)), w1)))
  ∧ (∀ e w1, open_write candidate body w = (Raise e, w1) →
       freefem args (Some body) w = (Raise e, w1)).
Proof.
  intros Hf. simpl.
  pose proof (given_resolved args (Some body) file Hf) as Hr.
  split_and!.
  - intros [Hw|Hw]%truthy_false; unfold script_candidate; rewrite Hw; done.
  - apply given_candidate.
  - intros w1 Hopen.
    change (open_write (script_candidate args) body w)
      with (stage_cell args (Some body) w) in Hopen.
    pose proof (stage_cell_returns _ _ _ _ Hopen) as ->.
    split_and!.
    + simpl. apply lookup_insert_eq.
    + done.
    + by rewrite freefem_staged, Hr.
    + intros Hex.
      destruct (freefem_spawns_interpreter args (Some body) w Hopen)
        as (rest & Ht & _); [by rewrite Hr|].
      exists rest. rewrite Ht, Hr. simpl. by rewrite <- (assoc_L (++)).
    + intros Hno. rewrite freefem_missing_script by (by rewrite ?Hr).
      by rewrite Hr.
  - intros e w1 Hopen. by apply freefem_not_staged.
Qed.


(** ** Temporary Script Staging *)

Lemma is_under_join d rest : is_under d (d +:+ "/" +:+ rest) = true.
Proof.
  unfold is_under. induction d as [|a d IH]; [by destruct rest|].
  unfold String.app in *. simpl. by destruct (Ascii.ascii_dec a a).
Qed.

Lemma is_under_irrefl d : is_under d d = false.
Proof.
  unfold is_under. induction d as [|a d IH]; [reflexivity|].
  unfold String.app in *. simpl. by destruct (Ascii.ascii_dec a a).
Qed.

(** The loop of the constructor: one new file per string, in order, each
    holding its string, and nothing else in the file system changes. *)
Lemma stage_loop_spec d ff_codes : ∀ acc w,
  ∃ new w',
    stage_loop d ff_codes acc w = (Return (acc ++ new), w')
    ∧ Forall2 (λ f c, (∃ stem, f = d +:+ "/" +:+ stem +:+ ".edp")
                      ∧ is_under d f = true
                      ∧ fs w' !! f = Some (File c)) new ff_codes
    ∧ NoDup new
    ∧ (∀ f, f ∈ new → fs w !! f = None)
    ∧ (∀ p, p ∉ new → fs w' !! p = fs w !! p).
Proof.
  induction ff_codes as [|c rest IH]; intros acc w.
  - exists [], w. simpl. rewrite app_nil_r.
    split_and!; [done | constructor | constructor | by intros ? ?%elem_of_nil | done].
  - set (f := temp_path ".edp" d (fs w)).
    set (w1 := mkWorld (<[f := File c]> (<[f := File ""]> (fs w)))
                       ((trace w ++ [MadeFile f]) ++ [Wrote f c])).
    destruct (IH (acc ++ [f]) w1) as (new & w' & Hrun & Hall & Hnd & Hnew & Hframe).
    assert (Hf1 : fs w1 !! f = Some (File c)) by apply lookup_insert_eq.
    assert (Hfn : f ∉ new).
    { intros Hin. apply Hnew in Hin. congruence. }
    exists (f :: new), w'. split_and!.
    + simpl. unfold bind, mkstemp, fdopen_write. simpl.
      fold f. fold w1. by rewrite Hrun, <- (assoc_L (++)).
    + constructor; [|done]. split_and!.
      * exists ("tmp" +:+ temp_name ".edp" d (fs w)). reflexivity.
      * apply is_under_join.
      * by rewrite Hframe.
    + by constructor.
    + intros f' [->|Hin]%elem_of_cons.
      * apply (temp_path_new ".edp" d). by left.
      * assert (f' ≠ f) by (intros ->; done).
        specialize (Hnew f' Hin). simpl in Hnew.
        by rewrite !lookup_insert_ne in Hnew.
    + intros p [Hne Hp]%not_elem_of_cons. rewrite Hframe by done. simpl.
      by rewrite !lookup_insert_ne.
Qed.

(** [shutil.rmtree] on a directory leaves nothing at or below it and nothing
    else changed. *)
Lemma rmtree_dir d w :
  fs w !! d = Some Dir →
  ∃ w', rmtree d w = (Return (), w')
        ∧ (∀ p, p = d ∨ is_under d p = true → fs w' !! p = None)
        ∧ (∀ p, p ≠ d → is_under d p = false → fs w' !! p = fs w !! p).
Proof.
  intros Hd. unfold rmtree. rewrite Hd. eexists. split; [done|]. simpl. split.
  - intros p Hp. apply map_lookup_filter_None. right. intros x _ [Hne Hu].
    simpl in *. destruct Hp as [->|Hp]; congruence.
  - intros p Hne Hu. destruct (fs w !! p) as [x|] eqn:Hp.
    + apply map_lookup_filter_Some. by split.
    + apply map_lookup_filter_None. by left.
Qed.

(** Leaving the scope runs [__exit__] on both ways out; it does not swallow
    the exception that ended the block. *)
Lemma with_TemporaryFreeFemFile {A} self (block : TemporaryFreeFemFile → M A) w :
  fs (block self w).2 !! tmp_dir self = Some Dir →
  (with_stmt self block w).1 =
    match (block self w).1 with
    | Return a => Return (Some a)
    | Raise e => Raise e
    end
  ∧ ∀ p, p = tmp_dir self ∨ is_under (tmp_dir self) p = true →
         fs (with_stmt self block w).2 !! p = None.
Proof.
  intros Hd. unfold with_stmt. simpl. unfold ret at 1.
  destruct (block self w) as [[a|e] w2]; simpl in *;
    destruct (rmtree_dir _ _ Hd) as (w3 & Hrm & Hgone & _);
    unfold bind; rewrite Hrm; done.
Qed.

(** C3.  Constructing a [TemporaryFreeFemFile] from a list of script texts
    (any list, the non-empty ones in particular) makes a scratch directory
    that was not there before; in it, one file per text, the files pairwise
    distinct, each named [<tmp_dir>/<stem>.edp] and holding exactly its text,
    and nothing else.  When the [with] block ends, normally or by an exception,
    [__exit__] removes the directory with everything below it, and an
    exception of the block is raised on. *)
Theorem C3_staging_creates_and_removes ff_codes w :
  ∃ self w1,
    __init__ (CodeList ff_codes) w = (Return self, w1)
    ∧ fs w !! tmp_dir self = None
    ∧ fs w1 !! tmp_dir self = Some Dir
    ∧ length (ff_files self) = length ff_codes
    ∧ NoDup (ff_files self)
    ∧ Forall2 (λ f c, (∃ stem, f = tmp_dir self +:+ "/" +:+ stem +:+ ".edp")
                      ∧ is_under (tmp_dir self) f = true
                      ∧ fs w1 !! f = Some (File c))
              (ff_files self) ff_codes
    ∧ (∀ p, is_under (tmp_dir self) p = true → is_Some (fs w1 !! p) →
            p ∈ ff_files self)
    ∧ (∀ A (block : TemporaryFreeFemFile → M A),
         fs (block self w1).2 !! tmp_dir self = Some Dir →
         (with_stmt self block w1).1 =
           match (block self w1).1 with
           | Return a => Return (Some a)
           | Raise e => Raise e
           end
         ∧ ∀ p, p = tmp_dir self ∨ is_under (tmp_dir self) p = true →
                fs (with_stmt self block w1).2 !! p = None).
Proof.
  set (d := temp_path "" gettempdir (fs w)).
  set (w0 := mkWorld (<[d := Dir]> (fs w)) (trace w ++ [MadeDir d])).
  destruct (stage_loop_spec d ff_codes [] w0)
    as (new & w1 & Hrun & Hall & Hnd & Hnew & Hframe).
  assert (Hd0 : fs w0 !! d = Some Dir) by apply lookup_insert_eq.
  assert (Hdn : d ∉ new).
  { intros Hin. apply Hnew in Hin. congruence. }
  exists (mkTemporaryFreeFemFile d new), w1. simpl. split_and!.
  - unfold __init__, bind, mkdtemp. simpl. fold d. fold w0. by rewrite Hrun.
  - apply (temp_path_new "" gettempdir). by left.
  - by rewrite Hframe.
  - by apply Forall2_length in Hall.
  - done.
  - done.
  - intros p Hu [x Hx]. destruct (decide (p ∈ new)) as [|Hp]; [done|].
    rewrite Hframe in Hx by done. simpl in Hx.
    rewrite lookup_insert_ne in Hx
      by (intros <-; by rewrite is_under_irrefl in Hu).
    rewrite (temp_path_new "" gettempdir (fs w) p) in Hx by (by right).
    done.
  - intros A block Hd.
    apply (with_TemporaryFreeFemFile (mkTemporaryFreeFemFile d new)). done.
Qed.

(** C8.  The constructor puts a single string into a one-element list before
    it does anything with it: staging [s] is staging [[s]], with the same
    object, the same world and, for every block, the same [with] statement;
    either way there is one file, and it holds [s]. *)
Theorem C8_single_string_is_one_element_batch s w :
  __init__ (CodeStr s) w = __init__ (CodeList [s]) w
  ∧ (∀ A (block : TemporaryFreeFemFile → M A),
       (mgr <- __init__ (CodeStr s) ;; with_stmt mgr block) w =
       (mgr <- __init__ (CodeList [s]) ;; with_stmt mgr block) w)
  ∧ ∃ self w1 f,
      __init__ (CodeStr s) w = (Return self, w1)
      ∧ ff_files self = [f]
      ∧ fs w1 !! f = Some (File s).
Proof.
  split_and!; [done | done |].
  unfold __init__, bind, mkdtemp, mkstemp, fdopen_write, ret.
  simpl. do 3 eexists. split_and!; [done | done |]. simpl.
  apply lookup_insert_eq.
Qed.

(** * Further properties of the code *)

(** ** The call sites, one by one *)

(** X1.  With a missing input path a call site leaves the world as it found it:
    nothing is spawned, printed or written.  [run_ff_file] raises the
    [IOError] naming the path; the converters end in [NameError]. *)
Theorem missing_input_changes_nothing op path w :
  fs w !! resolve path = None →
  ∃ e, run op path w = (Raise e, w)
       ∧ (op = Interpreter → e = IOError ("File not found: " +:+ path))
       ∧ (op ≠ Interpreter →
          e = NameError "global name 'ff_file' is not defined").
Proof.
  intros Hno. rewrite run_missing by done. eexists. split; [done|].
  by destruct op.
Qed.

(** X2.  A call site returns only when its input was there and its child ended
    with status zero; the world then has grown by that one spawn and one
    print, and the value is the captured output for [run_ff_file] and the
    name of the image for a converter. *)
Theorem run_return_inversion op path w v w' :
  run op path w = (Return v, w') →
  is_Some (fs w !! resolve path)
  ∧ returncode (exec (runner_argv op path) (fs w)).1 = 0%Z
  ∧ v = runner_value op path (exec (runner_argv op path) (fs w)).1
  ∧ w' = mkWorld (exec (runner_argv op path) (fs w)).2
           (trace w ++ [Spawned (runner_argv op path);
                        Printed (stdout (exec (runner_argv op path) (fs w)).1)]).
Proof.
  destruct (fs w !! resolve path) as [n|] eqn:Hp.
  - rewrite run_spawned by (rewrite Hp; eauto). simpl.
    case_decide; [|done]. intros [= <- <-].
    rewrite <- (assoc_L (++)). split_and!; eauto.
  - by rewrite run_missing.
Qed.

(** ** The dispatcher as a whole *)

Lemma spawned_argvs_app evs1 evs2 :
  spawned_argvs (evs1 ++ evs2) = spawned_argvs evs1 ++ spawned_argvs evs2.
Proof. apply omap_app. Qed.

(** A computation that adds no event. *)
Lemma appends_nothing {A} (m : M A) w :
  appends (λ _, False) m → trace (m w).2 = trace w.
Proof.
  intros Hm. destruct (Hm w) as (evs & Ht & HP).
  destruct evs as [|e evs]; [by rewrite app_nil_r in Ht|].
  by apply Forall_cons in HP as [[] _].
Qed.

(** X3.  When the interpreter ends with a non-zero status the command stops
    there: it raises [FreeFemException] with the interpreter's output,
    whatever the display flags are; no converter is spawned and nothing is
    printed, while a body that was supplied stays written. *)
Theorem interpreter_failure_stops_dispatch args cell w r files' :
  stage_cell args cell w = (Return (), staged args cell w) →
  is_Some (fs (staged args cell w) !! resolve (resolved_script args cell)) →
  exec (runner_argv Interpreter (resolved_script args cell))
       (fs (staged args cell w)) = (r, files') →
  returncode r ≠ 0%Z →
  freefem args cell w =
    (Raise (FreeFemException (stdout r)),
     mkWorld files'
       (trace (staged args cell w)
          ++ [Spawned (runner_argv Interpreter (resolved_script args cell))])).
Proof.
  intros Hs Hex Hrun Hrc. rewrite freefem_staged by done. unfold bind.
  change (run_ff_file ?p) with (run Interpreter p).
  rewrite run_spawned by done. rewrite Hrun. simpl. by case_decide.
Qed.

(** What a conversion step spawns: its converter when the input is there,
    nothing otherwise. *)
Lemma show_raster_spawns d w :
  ∃ evs, trace (show_raster d w).2 = trace w ++ evs
         ∧ spawned_argvs evs =
             if bool_decide (is_Some (fs w !! resolve d))
             then [runner_argv ToRaster d] else [].
Proof.
  case_bool_decide as Hex.
  - destruct (decide (returncode (exec (runner_argv ToRaster d) (fs w)).1 = 0%Z))
      as [Hrc|Hrc].
    + rewrite show_raster_converted by done.
      eexists [Spawned _; Printed _]. split; [|done].
      rewrite appends_nothing; [done|].
      apply appends_bind; [apply appends_new_Image|]. intros ?. apply appends_ret.
    + rewrite show_raster_failed by done. by eexists [Spawned _].
  - rewrite show_raster_missing.
    + exists []. by rewrite app_nil_r.
    + destruct (fs w !! resolve d) eqn:Hd; [|done]. exfalso. apply Hex. eauto.
Qed.

Lemma show_vector_spawns s w :
  ∃ evs, trace (show_vector s w).2 = trace w ++ evs
         ∧ spawned_argvs evs =
             if bool_decide (is_Some (fs w !! resolve s))
             then [runner_argv ToVector s] else [].
Proof.
  case_bool_decide as Hex.
  - destruct (decide (returncode (exec (runner_argv ToVector s) (fs w)).1 = 0%Z))
      as [Hrc|Hrc].
    + rewrite show_vector_converted by done.
      eexists [Spawned _; Printed _]. split; [|done].
      rewrite appends_nothing; [done|].
      apply appends_bind; [apply appends_new_SVG|]. intros ?. apply appends_ret.
    + rewrite show_vector_failed by done. by eexists [Spawned _].
  - rewrite show_vector_missing.
    + exists []. by rewrite app_nil_r.
    + destruct (fs w !! resolve s) eqn:Hd; [|done]. exfalso. apply Hex. eauto.
Qed.

Lemma display_step_spawns args w :
  ∃ evs, trace (display_step args w).2 = trace w ++ evs
         ∧ spawned_argvs evs = converter_plan args (fs w).
Proof.
  unfold display_step, converter_plan.
  destruct (args_display args) as [d|], (args_displaysvg args) as [s|];
    repeat case_decide;
    first [ apply show_raster_spawns | apply show_vector_spawns
          | exists []; by rewrite app_nil_r ].
Qed.

Lemma stage_cell_spawns args cell w :
  ∃ evs, trace (stage_cell args cell w).2 = trace w ++ evs
         ∧ spawned_argvs evs = [].
Proof.
  destruct cell as [body|]; simpl.
  - destruct (open_write (script_candidate args) body w) as [[[]|e] w1] eqn:Hw.
    + apply open_write_returns in Hw as (_ & _ & _ & ->). by eexists [_].
    + apply open_write_raises in Hw as [[-> _]|(_ & _ & ->)].
      * exists []. by rewrite app_nil_r.
      * by eexists [_].
  - exists []. by rewrite app_nil_r.
Qed.

(** X4.  The children of one invocation, in order, are those of the plan:
    none when the body cannot be persisted or the resolved script is
    missing; otherwise the interpreter on the resolved script and, after an
    interpreter that ended with status zero, the one converter the flags
    select (the raster one when [display] is given, the vector one only when
    it is not), provided its input is there.  There are never more than two
    children and never two converters. *)
Theorem freefem_spawn_sequence args cell w :
  ∃ evs,
    trace (freefem args cell w).2 = trace w ++ evs
    ∧ spawned_argvs evs = spawn_plan args cell w
    ∧ (∀ e w1, stage_cell args cell w = (Raise e, w1) → spawned_argvs evs = [])
    ∧ (fs (stage_cell args cell w).2 !! resolve (resolved_script args cell)
         = None → spawned_argvs evs = [])
    ∧ (spawned_argvs evs ≠ [] →
       ∃ converters,
         spawned_argvs evs =
           runner_argv Interpreter (resolved_script args cell) :: converters
         ∧ (converters = []
            ∨ (∃ d, given (args_display args) d
                    ∧ converters = [runner_argv ToRaster d])
            ∨ (∃ s, truthy (args_display args) = false
                    ∧ given (args_displaysvg args) s
                    ∧ converters = [runner_argv ToVector s]))).
Proof.
  assert (Hconv : ∀ files,
            converter_plan args files = []
            ∨ (∃ d, given (args_display args) d
                    ∧ converter_plan args files = [runner_argv ToRaster d])
            ∨ (∃ s, truthy (args_display args) = false
                    ∧ given (args_displaysvg args) s
                    ∧ converter_plan args files = [runner_argv ToVector s])).
  { intros files. unfold converter_plan, given.
    destruct (args_display args) as [d|], (args_displaysvg args) as [s|];
      repeat case_decide; repeat case_bool_decide; subst; simpl; eauto 10. }
  assert (Hplan : ∃ evs,
            trace (freefem args cell w).2 = trace w ++ evs
            ∧ spawned_argvs evs = spawn_plan args cell w).
  { destruct (stage_cell_spawns args cell w) as (evs0 & Ht0 & Hs0).
    unfold spawn_plan. rewrite freefem_unfold. unfold bind at 1.
    destruct (stage_cell args cell w) as [[[]|e] w1]; simpl in *; [|eauto].
    unfold bind. change (run_ff_file ?p) with (run Interpreter p).
    case_bool_decide as Hex.
    - rewrite run_spawned by done. simpl. case_decide; simpl.
      + match goal with |- context [display_step args ?w0] =>
          destruct (display_step_spawns args w0) as (evs & Ht & Hsp) end.
        eexists (evs0 ++ [Spawned _; Printed _] ++ evs). split.
        * rewrite Ht. cbn [fs trace]. rewrite Ht0, <- !(assoc_L (++)).
          reflexivity.
        * rewrite !spawned_argvs_app, Hs0, Hsp. reflexivity.
      + eexists (evs0 ++ [Spawned _]). rewrite Ht0, <- !(assoc_L (++)).
        split; [done|]. by rewrite spawned_argvs_app, Hs0.
    - rewrite run_missing.
      + by exists evs0.
      + destruct (fs w1 !! resolve _) eqn:Hd; [|done]. exfalso. apply Hex. eauto. }
  destruct Hplan as (evs & Ht & Hsp). exists evs.
  split_and!; [done | done | ..]; rewrite Hsp; unfold spawn_plan.
  - intros e w1 ->. done.
  - intros Hno. destruct (stage_cell args cell w) as [[[]|e] w1]; [|done].
    simpl in Hno. rewrite bool_decide_eq_false_2; [done|].
    rewrite Hno. by intros [? ?].
  - destruct (stage_cell args cell w) as [[[]|e] w1]; [|done].
    case_bool_decide; [|done]. case_decide; intros _; eauto.
Qed.

(** A conversion step that returns has found its input, seen its converter
    end with status zero and built the handle from the converted file. *)
Lemma show_raster_returns d w v w' :
  show_raster d w = (Return v, w') →
  v = Some (Image (d +:+ ".png"))
  ∧ is_Some (fs w !! resolve d)
  ∧ returncode (exec (runner_argv ToRaster d) (fs w)).1 = 0%Z
  ∧ ∃ data, (exec (runner_argv ToRaster d) (fs w)).2 !! resolve (d +:+ ".png")
            = Some (File data).
Proof.
  destruct (fs w !! resolve d) as [n|] eqn:Hd;
    [|by rewrite show_raster_missing].
  assert (Hex : is_Some (fs w !! resolve d)) by (rewrite Hd; eauto).
  destruct (decide (returncode (exec (runner_argv ToRaster d) (fs w)).1 = 0%Z))
    as [Hrc|Hrc]; [|by rewrite show_raster_failed].
  rewrite show_raster_converted by done.
  unfold bind, new_Image, bind, read_file. simpl.
  destruct (_ !! resolve (d +:+ ".png")) as [[data|]|] eqn:Hf; [|done..].
  destruct (open_r_error _ _); [done|]. intros [= <- _]. eauto 10.
Qed.

Lemma show_vector_returns s w v w' :
  show_vector s w = (Return v, w') →
  v = Some (SVG (s +:+ ".svg"))
  ∧ is_Some (fs w !! resolve s)
  ∧ returncode (exec (runner_argv ToVector s) (fs w)).1 = 0%Z
  ∧ ∃ data, (exec (runner_argv ToVector s) (fs w)).2 !! resolve (s +:+ ".svg")
            = Some (File data).
Proof.
  destruct (fs w !! resolve s) as [n|] eqn:Hd;
    [|by rewrite show_vector_missing].
  assert (Hex : is_Some (fs w !! resolve s)) by (rewrite Hd; eauto).
  destruct (decide (returncode (exec (runner_argv ToVector s) (fs w)).1 = 0%Z))
    as [Hrc|Hrc]; [|by rewrite show_vector_failed].
  rewrite show_vector_converted by done.
  unfold bind, new_SVG, bind, read_file. simpl.
  destruct (_ !! resolve (s +:+ ".svg")) as [[data|]|] eqn:Hf; [|done..].
  destruct (open_r_error _ _); [done|].
  destruct (svg_parses data); [|done]. intros [= <- _]. eauto 10.
Qed.

(** X5.  What the command returns tells what happened.  It returns at all only
    when the body, if any, was persisted, the resolved script was there and
    the interpreter ended with status zero.  An [Image] means that [display]
    was given, that its path was there once the interpreter had run, that the
    converter ended with status zero and that the image file was there to
    build the handle from; an [SVG] means the same for [displaysvg], with
    [display] not given; nothing is returned only when neither flag is
    given. *)
Theorem freefem_return_inversion args cell w v w' :
  freefem args cell w = (Return v, w') →
  let w1 := staged args cell w in
  let interp := runner_argv Interpreter (resolved_script args cell) in
  let files1 := (exec interp (fs w1)).2 in
  stage_cell args cell w = (Return (), w1)
  ∧ is_Some (fs w1 !! resolve (resolved_script args cell))
  ∧ returncode (exec interp (fs w1)).1 = 0%Z
  ∧ match v with
    | Some (Image p) =>
        ∃ d, given (args_display args) d ∧ p = d +:+ ".png"
             ∧ is_Some (files1 !! resolve d)
             ∧ returncode (exec (runner_argv ToRaster d) files1).1 = 0%Z
             ∧ ∃ data, (exec (runner_argv ToRaster d) files1).2 !! resolve p
                       = Some (File data)
    | Some (SVG p) =>
        truthy (args_display args) = false
        ∧ ∃ s, given (args_displaysvg args) s ∧ p = s +:+ ".svg"
               ∧ is_Some (files1 !! resolve s)
               ∧ returncode (exec (runner_argv ToVector s) files1).1 = 0%Z
               ∧ ∃ data, (exec (runner_argv ToVector s) files1).2 !! resolve p
                         = Some (File data)
    | None =>
        truthy (args_display args) = false
        ∧ truthy (args_displaysvg args) = false
    end.
Proof.
  rewrite freefem_unfold. unfold bind at 1.
  destruct (stage_cell args cell w) as [[[]|e0] w0] eqn:Hs; [|done].
  pose proof (stage_cell_returns _ _ _ _ Hs) as ->.
  unfold bind. change (run_ff_file ?p) with (run Interpreter p).
  destruct (run Interpreter _ _) as [[out|e] w2] eqn:Hrun; [|done].
  apply run_return_inversion in Hrun as (Hex & Hrc & _ & ->).
  intros Hdisp. simpl. split_and!; [done..|].
  assert (Hcases :
    (∃ d, given (args_display args) d
          ∧ ∀ w0, display_step args w0 = show_raster d w0)
    ∨ (truthy (args_display args) = false
       ∧ ∃ s, given (args_displaysvg args) s
              ∧ ∀ w0, display_step args w0 = show_vector s w0)
    ∨ (truthy (args_display args) = false
       ∧ truthy (args_displaysvg args) = false
       ∧ ∀ w0, display_step args w0 = (Return None, w0))).
  { unfold display_step.
    destruct (args_display args) as [d|], (args_displaysvg args) as [s|];
      repeat case_decide; subst;
      first [ left; eexists; by split
            | right; left; split; [done|]; eexists; by split
            | right; right; by split_and! ]. }
  destruct Hcases as [(d & Hd & Heq)|[(Hnd & s & Hs' & Heq)|(Hnd & Hns & Heq)]];
    rewrite Heq in Hdisp.
  - apply show_raster_returns in Hdisp as (-> & Hexd & Hrcd & data & Hf).
    simpl in *. exists d. split_and!; eauto.
  - apply show_vector_returns in Hdisp as (-> & Hexs & Hrcs & data & Hf).
    simpl in *. split; [done|]. exists s. split_and!; eauto.
  - by injection Hdisp as <- _.
Qed.

(** ** One invocation after another *)

Lemma length_append (a b : string) :
  String.length (a +:+ b) = (String.length a + String.length b)%nat.
Proof.
  unfold String.app. induction a as [|c a IH]; simpl; [done|]. by rewrite IH.
Qed.

(** X7.  The fixed name [temp.edp] outlives the invocation that wrote it:
    after a cell that was persisted without a write root, a later invocation
    with neither a body nor a positional file finds [temp.edp] holding that
    cell and runs it. *)
Theorem line_magic_reruns_last_cell args1 body args2 w :
  truthy (args_write args1) = false →
  truthy (args_ff_file args2) = false →
  (stage_cell args1 (Some body) w).1 = Return () →
  children_keep (resolve "temp.edp") →
  let w' := (freefem args1 (Some body) w).2 in
  fs w' !! resolve "temp.edp" = Some (File body)
  ∧ ∃ rest,
      trace (freefem args2 None w').2 =
        trace w' ++ Spawned ["FreeFem++"; "-nowait"; "-nw"; "-ne"; "temp.edp"]
                 :: rest.
Proof.
  intros Hw Hf Hstage Hk. simpl.
  assert (Hc : script_candidate args1 = "temp.edp").
  { apply truthy_false in Hw as [Hw|Hw]; unfold script_candidate;
      by rewrite Hw. }
  assert (Hs : stage_cell args1 (Some body) w
               = (Return (), staged args1 (Some body) w)).
  { destruct (stage_cell args1 (Some body) w) as [[[]|e] w1] eqn:Hs;
      [|done]. by rewrite (stage_cell_returns _ _ _ _ Hs). }
  assert (Hbody : fs (freefem args1 (Some body) w).2 !! resolve "temp.edp"
                  = Some (File body)).
  { rewrite freefem_keeps by done. rewrite Hs. simpl.
    by rewrite Hc, lookup_insert_eq. }
  split; [done|].
  pose proof (not_given_resolved args2 None Hf) as Hr. simpl in Hr.
  destruct (freefem_spawns_interpreter args2 None (freefem args1 (Some body) w).2)
    as (rest & Ht & _); [done| |].
  { simpl. rewrite Hr, Hbody. eauto. }
  exists rest. rewrite Ht, Hr. done.
Qed.

(** X8.  Two cells run one after the other, each persisted.  The later body
    ends up in the file its name resolves to.  The earlier body is still in
    its file when the two names resolve to different files, and is replaced
    when they resolve to the same file, as they do when neither cell gives a
    write root (both use [temp.edp]). *)
Theorem successive_cells args1 body1 args2 body2 w :
  let w' := (freefem args1 (Some body1) w).2 in
  let w'' := (freefem args2 (Some body2) w').2 in
  let file1 := resolve (script_candidate args1) in
  let file2 := resolve (script_candidate args2) in
  (stage_cell args1 (Some body1) w).1 = Return () →
  (stage_cell args2 (Some body2) w').1 = Return () →
  children_keep file1 →
  children_keep file2 →
  fs w'' !! file2 = Some (File body2)
  ∧ (file1 ≠ file2 → fs w'' !! file1 = Some (File body1))
  ∧ (file1 = file2 → fs w'' !! file1 = Some (File body2))
  ∧ (truthy (args_write args1) = false → truthy (args_write args2) = false →
     script_candidate args1 = "temp.edp" ∧ file1 = file2).
Proof.
  simpl. intros Hs1 Hs2 Hk1 Hk2.
  assert (Hret : ∀ args body w0,
            (stage_cell args (Some body) w0).1 = Return () →
            stage_cell args (Some body) w0
              = (Return (), staged args (Some body) w0)).
  { intros args body w0 H.
    destruct (stage_cell args (Some body) w0) as [[[]|e] w1] eqn:Hs; [|done].
    by rewrite (stage_cell_returns _ _ _ _ Hs). }
  apply Hret in Hs1, Hs2.
  assert (Hlater : fs (freefem args2 (Some body2)
                         (freefem args1 (Some body1) w).2).2
                     !! resolve (script_candidate args2) = Some (File body2)).
  { rewrite freefem_keeps by done. rewrite Hs2. simpl. apply lookup_insert_eq. }
  split_and!.
  - done.
  - intros Hne. rewrite freefem_keeps by done. rewrite Hs2. simpl.
    rewrite lookup_insert_ne by done.
    rewrite freefem_keeps by done. rewrite Hs1. simpl. apply lookup_insert_eq.
  - intros Heq. by rewrite Heq.
  - intros [H1|H1]%truthy_false [H2|H2]%truthy_false;
      unfold script_candidate; rewrite H1, H2; done.
Qed.

(** ** Staging: what else the scratch directory guarantees *)

Lemma appends_fdopen_write P fd s :
  P (Wrote fd s) → appends P (fdopen_write fd s).
Proof. intros HP w. exists [Wrote fd s]. split; [done|]. by repeat constructor. Qed.

Lemma appends_mkdtemp : appends staging_event mkdtemp.
Proof. intros w. eexists [MadeDir _]. split; [done|]. by repeat constructor. Qed.

Lemma appends_mkstemp suffix dir : appends staging_event (mkstemp suffix dir).
Proof. intros w. eexists [MadeFile _]. split; [done|]. by repeat constructor. Qed.

Lemma appends_stage_loop d ff_codes :
  ∀ acc, appends staging_event (stage_loop d ff_codes acc).
Proof.
  induction ff_codes as [|c rest IH]; intros acc; simpl.
  - apply appends_ret.
  - apply appends_bind; [apply appends_mkstemp|]. intros fd_file.
    apply appends_bind; [by apply appends_fdopen_write|]. intros _. apply IH.
Qed.

(** The constructor, seen from the file system it starts on. *)
Lemma init_spec ff_codes w :
  ∃ new w1,
    __init__ (CodeList ff_codes) w =
      (Return (mkTemporaryFreeFemFile (temp_path "" gettempdir (fs w)) new), w1)
    ∧ fs w1 !! temp_path "" gettempdir (fs w) = Some Dir
    ∧ Forall (λ f, is_under (temp_path "" gettempdir (fs w)) f = true) new
    ∧ Forall2 (λ f c, fs w1 !! f = Some (File c)) new ff_codes
    ∧ (∀ p, p ≠ temp_path "" gettempdir (fs w) → p ∉ new →
            fs w1 !! p = fs w !! p)
    ∧ (∃ evs, trace w1 = trace w ++ evs ∧ Forall staging_event evs).
Proof.
  set (d := temp_path "" gettempdir (fs w)).
  set (w0 := mkWorld (<[d := Dir]> (fs w)) (trace w ++ [MadeDir d])).
  destruct (stage_loop_spec d ff_codes [] w0)
    as (new & w1 & Hrun & Hall & Hnd & Hnew & Hframe).
  assert (Hinit : __init__ (CodeList ff_codes) w =
                  (Return (mkTemporaryFreeFemFile d new), w1)).
  { unfold __init__, bind, mkdtemp. simpl. fold d. fold w0. by rewrite Hrun. }
  exists new, w1. split_and!.
  - done.
  - rewrite Hframe; [apply lookup_insert_eq|].
    intros Hin. apply Hnew in Hin. simpl in Hin.
    by rewrite lookup_insert_eq in Hin.
  - eapply Forall2_Forall_l; [exact Hall|].
    apply Forall_true. by intros f c (_ & Hu & _).
  - eapply Forall2_impl; [exact Hall|]. by intros f c (_ & _ & Hc).
  - intros p Hne Hp. rewrite Hframe by done. simpl.
    by rewrite lookup_insert_ne.
  - assert (Happ : appends staging_event (__init__ (CodeList ff_codes))).
    { unfold __init__. apply appends_bind; [apply appends_mkdtemp|].
      intros tmp. apply appends_bind; [apply appends_stage_loop|].
      intros files. apply appends_ret. }
    destruct (Happ w) as (evs & Ht & HP). rewrite Hinit in Ht. eauto.
Qed.

(** X9.  Staging disturbs nothing that is already there: every path of the file
    system the constructor starts on keeps what it held, and the constructor
    only makes its directory and files and writes to them: it spawns no
    child, prints nothing and removes nothing. *)
Theorem staging_disturbs_nothing ff_codes w :
  ∃ self w1,
    __init__ (CodeList ff_codes) w = (Return self, w1)
    ∧ (∀ p, is_Some (fs w !! p) → fs w1 !! p = fs w !! p)
    ∧ ∃ evs, trace w1 = trace w ++ evs ∧ Forall staging_event evs.
Proof.
  destruct (init_spec ff_codes w)
    as (new & w1 & Hinit & Hd & Hunder & Hall & Hframe & Hev).
  eexists _, w1. split_and!; [exact Hinit| |exact Hev].
  intros p [x Hx]. apply Hframe.
  - intros ->.
    rewrite (temp_path_new "" gettempdir (fs w)) in Hx by (by left). done.
  - intros Hin. rewrite Forall_forall in Hunder. apply Hunder in Hin.
    rewrite (temp_path_new "" gettempdir (fs w) p) in Hx by (by right). done.
Qed.

(** X10.  Staging and leaving the scope is a round trip on the file system: when
    the block itself leaves the file system as it is, the file system after
    the [with] statement is the one before it, whether the block returned or
    raised. *)
Theorem staging_round_trip {A} ff_codes (block : TemporaryFreeFemFile → M A) w :
  (∀ self w', fs (block self w').2 = fs w') →
  fs ((mgr <- __init__ (CodeList ff_codes) ;; with_stmt mgr block) w).2 = fs w.
Proof.
  intros Hblock.
  destruct (init_spec ff_codes w)
    as (new & w1 & Hinit & Hd & Hunder & Hall & Hframe & Hev).
  unfold bind. rewrite Hinit.
  set (self := mkTemporaryFreeFemFile _ new).
  unfold with_stmt. simpl. unfold ret at 1.
  specialize (Hblock self w1).
  assert (Hd2 : fs (block self w1).2 !! tmp_dir self = Some Dir)
    by (by rewrite Hblock).
  destruct (rmtree_dir _ _ Hd2) as (w3 & Hrm & Hgone & Hkept).
  assert (Hfs : fs w3 = fs w).
  { apply map_eq. intros p.
    destruct (decide (p = tmp_dir self ∨ is_under (tmp_dir self) p = true))
      as [Hp|Hp].
    - rewrite Hgone by done. symmetry.
      by apply (temp_path_new "" gettempdir (fs w) p).
    - assert (p ≠ tmp_dir self) by (intros ->; apply Hp; by left).
      assert (is_under (tmp_dir self) p = false).
      { destruct (is_under (tmp_dir self) p) eqn:Hu; [|done].
        exfalso. apply Hp. by right. }
      rewrite Hkept by done. rewrite Hblock. apply Hframe; [done|].
      intros Hin. rewrite Forall_forall in Hunder. apply Hunder in Hin.
      simpl in *. congruence. }
  destruct (block self w1) as [[a|e] w2]; simpl in *;
    unfold bind; rewrite Hrm; done.
Qed.

(** X11.  Two batches staged one after the other do not get in each other's way:
    the second scratch directory is another one, no file belongs to both
    batches, and after the second staging the first directory is still there
    with every one of its files holding its text. *)
Theorem successive_stagings_are_disjoint codes1 codes2 w :
  ∃ self1 w1 self2 w2,
    __init__ (CodeList codes1) w = (Return self1, w1)
    ∧ __init__ (CodeList codes2) w1 = (Return self2, w2)
    ∧ tmp_dir self1 ≠ tmp_dir self2
    ∧ (∀ f, f ∈ ff_files self1 → f ∉ ff_files self2)
    ∧ fs w2 !! tmp_dir self1 = Some Dir
    ∧ Forall2 (λ f c, fs w2 !! f = Some (File c)) (ff_files self1) codes1.
Proof.
  destruct (init_spec codes1 w)
    as (new1 & w1 & Hinit1 & Hd1 & Hunder1 & Hall1 & Hframe1 & _).
  destruct (init_spec codes2 w1)
    as (new2 & w2 & Hinit2 & Hd2 & Hunder2 & Hall2 & Hframe2 & _).
  set (d1 := temp_path "" gettempdir (fs w)) in *.
  set (d2 := temp_path "" gettempdir (fs w1)) in *.
  assert (Hold : ∀ p, is_Some (fs w1 !! p) → p ≠ d2 ∧ p ∉ new2).
  { intros p [x Hx]. split.
    - intros ->. unfold d2 in Hx.
      rewrite (temp_path_new "" gettempdir (fs w1)) in Hx by (by left). done.
    - intros Hin. rewrite Forall_forall in Hunder2. apply Hunder2 in Hin.
      rewrite (temp_path_new "" gettempdir (fs w1) p) in Hx by (by right).
      done. }
  assert (Hfiles1 : ∀ f, f ∈ new1 → is_Some (fs w1 !! f)).
  { intros f Hin. apply list_elem_of_lookup in Hin as [i Hi].
    destruct (Forall2_lookup_l _ _ _ _ _ Hall1 Hi) as (c & _ & Hc). eauto. }
  eexists _, w1, _, w2. split_and!; [exact Hinit1 | exact Hinit2 | ..]; simpl.
  - intros Heq. destruct (Hold d1) as [Hne _]; [rewrite Hd1; eauto|]. done.
  - intros f Hin. by apply Hold, Hfiles1.
  - destruct (Hold d1) as [Hne Hnin]; [rewrite Hd1; eauto|].
    by rewrite Hframe2.
  - apply Forall2_same_length_lookup. split; [by eapply Forall2_length|].
    intros i f c Hf Hc.
    pose proof (Forall2_lookup_lr _ _ _ _ _ _ Hall1 Hf Hc) as Hfc.
    destruct (Hold f) as [Hne Hnin]; [rewrite Hfc; eauto|].
    by rewrite Hframe2.
Qed.

(** X12.  Leaving the scope when the scratch directory is no longer a directory:
    [__exit__] raises [OSError], which takes the place of whatever the block
    returned or raised, and the world stays as the block left it.  In no case
    does the context manager swallow an exception of the block. *)
Theorem exit_without_directory {A} self (block : TemporaryFreeFemFile → M A) w :
  (with_stmt self block w).1 ≠ Return None
  ∧ (fs (block self w).2 !! tmp_dir self ≠ Some Dir →
     ∃ msg, with_stmt self block w = (Raise (OSError msg), (block self w).2)).
Proof.
  unfold with_stmt. simpl. unfold ret at 1. unfold bind, rmtree.
  destruct (block self w) as [[a|e] w2]; simpl;
    destruct (fs w2 !! tmp_dir self) as [[c|]|] eqn:Hd; simpl;
    (split; [done|]); intros Hne; try done; eauto.
Qed.

(** ** Empty option values *)

(** X13.  An option passed with an empty value ([--write=], [--display=]) counts
    for nothing: the command does exactly what it does when the option is
    left out, in what it returns or raises and in what it does to the world. *)
Theorem empty_option_values_are_ignored args cell w :
  freefem args cell w = freefem (without_empty_values args) cell w.
Proof.
  destruct args as [[[|c1 f]|] [[|c2 d]|] [[|c3 s]|] [[|c4 r]|]];
    reflexivity.
Qed.

End FreeFemMagic.

(** * The dispatcher on a POSIX file system *)






(** * The theorems at concrete inputs *)

Lemma length_pad n : String.length (pad n) = n.
Proof.
  induction n as [|n IH]; simpl; [done|]. by rewrite length_append, IH.
Qed.

Lemma prefix_length (a b : string) :
  String.prefix a b = true → (String.length a ≤ String.length b)%nat.
Proof.
  revert b. induction a as [|c a IH]; intros [|c' b]; simpl; try done; try lia.
  destruct (Ascii.ascii_dec c c'); [|done]. intros ?%IH. lia.
Qed.

Lemma lookup_longest (files : gmap string node) p x :
  files !! p = Some x → (String.length p ≤ longest files)%nat.
Proof.
  intros Hp. unfold longest. apply max_list_elem_of_le.
  apply list_elem_of_fmap. exists p. split; [done|].
  apply list_elem_of_fmap. exists (p, x). split; [done|].
  by apply elem_of_map_to_list.
Qed.

(** [long_name] keeps the promise [tempfile] makes. *)
Lemma long_name_new suffix dir (files : gmap string node) p :
  p = temp_path long_name suffix dir files
  ∨ is_under (temp_path long_name suffix dir files) p = true →
  files !! p = None.
Proof.
  intros Hp. destruct (files !! p) as [x|] eqn:Hx; [|done].
  apply lookup_longest in Hx.
  assert (Hlen : (longest files < String.length (temp_path long_name suffix dir files))%nat).
  { unfold temp_path, long_name. rewrite !length_append, length_pad. lia. }
  destruct Hp as [->|Hu]; [lia|].
  unfold is_under in Hu. apply prefix_length in Hu.
  rewrite length_append in Hu. lia.
Qed.

Lemma exec_const_keeps r k : children_keep (exec_const r) k.
Proof. intros argv files. reflexivity. Defined.

(** C1 at the scenario of the specification: the interpreter exits with
    status 2 after printing ["syntax error line 4"]. *)
Lemma C1_witness :
  let exec := exec_const (mkProc 2 "syntax error line 4" "FreeFem++ stopped") in
  let resolve := abspath "/home/user" in
  let w := mkWorld {["/home/user/cell.edp" := File "real a"]} [] in
  ∃ e, run exec resolve Interpreter "cell.edp" w =
         (Raise e,
          mkWorld {["/home/user/cell.edp" := File "real a"]}
                  (trace w ++ [Spawned (runner_argv Interpreter "cell.edp")]))
       ∧ e = FreeFemException "syntax error line 4"
       ∧ exn_str e = "syntax error line 4".
Proof.
  intros exec resolve w.
  apply (C1_nonzero_exit_raises_stdout exec resolve Interpreter "cell.edp" w
           (mkProc 2 "syntax error line 4" "FreeFem++ stopped")
           {["/home/user/cell.edp" := File "real a"]}).
  - exists (File "real a"). vm_compute. reflexivity.
  - reflexivity.
  - discriminate.
Defined.

(** The claim of C7 fails at a converter: with status zero [convert_png]
    returns the name of the image, not what the converter printed. *)
Lemma C7_counterexample_convert_png_returns_path :
  let exec := exec_const (mkProc 0 "Bitmap saved" "") in
  let resolve := abspath "/home/user" in
  let w := mkWorld {["/home/user/plot.eps" := File "%!PS-Adobe-3.0"]} [] in
  returncode (exec (runner_argv ToRaster "plot.eps") (fs w)).1 = 0%Z
  ∧ stdout (exec (runner_argv ToRaster "plot.eps") (fs w)).1 = "Bitmap saved"
  ∧ (convert_png exec resolve "plot.eps" w).1 = Return "plot.eps.png"
  ∧ (convert_png exec resolve "plot.eps" w).1 ≠ Return "Bitmap saved".
Proof.
  intros exec resolve w.
  assert ((convert_png exec resolve "plot.eps" w).1 = Return "plot.eps.png") as ->
    by (vm_compute; reflexivity).
  split_and!; [reflexivity | reflexivity | reflexivity | discriminate].
Qed.

(** C7 at a converter exiting with status zero. *)
Lemma C7_witness :
  let exec := exec_const (mkProc 0 "Bitmap saved" "") in
  let resolve := abspath "/home/user" in
  let w := mkWorld {["/home/user/plot.eps" := File "%!PS-Adobe-3.0"]} [] in
  run exec resolve ToRaster "plot.eps" w =
    (Return "plot.eps.png",
     mkWorld {["/home/user/plot.eps" := File "%!PS-Adobe-3.0"]}
       (trace w ++ [Spawned (runner_argv ToRaster "plot.eps")]
                ++ [Printed "Bitmap saved"])).
Proof.
  intros exec resolve w.
  apply (C7_zero_exit_prints_and_returns exec resolve ToRaster "plot.eps" w
           (mkProc 0 "Bitmap saved" "")
           {["/home/user/plot.eps" := File "%!PS-Adobe-3.0"]}).
  - exists (File "%!PS-Adobe-3.0"). vm_compute. reflexivity.
  - reflexivity.
  - reflexivity.
Defined.

(** C5 at a cell whose picture is there and whose converter does its work:
    with both display flags the raster branch alone runs and the command
    returns the [Image]; with [displaysvg] alone it returns the [SVG]. *)
Lemma C5_witness :
  let resolve := abspath "/home/user" in
  let exec := exec_tools resolve in
  let w := mkWorld {["/home/user/plot.eps" := File "%!PS-Adobe-3.0"]} [] in
  freefem exec resolve granted granted (λ _, true)
      (mkNamespace None (Some "plot.eps") (Some "plot.eps") None)
      (Some "real a; a=1;") w =
    (Return (Some (Image "plot.eps.png")),
     mkWorld {["/home/user/plot.eps" := File "%!PS-Adobe-3.0";
               "/home/user/temp.edp" := File "real a; a=1;";
               "/home/user/plot.eps.png" := File "<svg/>"]}
       [Wrote "temp.edp" "real a; a=1;";
        Spawned ["FreeFem++"; "-nowait"; "-nw"; "-ne"; "temp.edp"];
        Printed "ok";
        Spawned ["inkscape"; "-z"; "-f"; "plot.eps"; "-e"; "plot.eps.png"];
        Printed "Bitmap saved"])
  ∧ freefem exec resolve granted granted (λ _, true)
      (mkNamespace None None (Some "plot.eps") None)
      (Some "real a; a=1;") w =
    (Return (Some (SVG "plot.eps.svg")),
     mkWorld {["/home/user/plot.eps" := File "%!PS-Adobe-3.0";
               "/home/user/temp.edp" := File "real a; a=1;";
               "/home/user/plot.eps.svg" := File "<svg/>"]}
       [Wrote "temp.edp" "real a; a=1;";
        Spawned ["FreeFem++"; "-nowait"; "-nw"; "-ne"; "temp.edp"];
        Printed "ok";
        Spawned ["inkscape"; "-z"; "-f"; "plot.eps"; "-l"; "plot.eps.svg"];
        Printed "Bitmap saved"]).
Proof.
  intros resolve exec w. split.
  - set (args := mkNamespace None (Some "plot.eps") (Some "plot.eps") None).
    destruct (C5_display_selection exec resolve granted granted (λ _, true)
                args (Some "real a; a=1;") w "ok"
                ((_ <- stage_cell resolve granted args (Some "real a; a=1;") ;;
                  run_ff_file exec resolve "temp.edp")%py w).2)
      as [Hraster _].
    + vm_compute. reflexivity.
    + destruct (Hraster "plot.eps") as [Hok _].
      * split; [reflexivity | discriminate].
      * destruct Hok as [Hfound _].
        -- exists (File "%!PS-Adobe-3.0"). vm_compute. reflexivity.
        -- reflexivity.
        -- rewrite (Hfound "<svg/>").
           ++ vm_compute. reflexivity.
           ++ vm_compute. reflexivity.
           ++ reflexivity.
  - set (args := mkNamespace None None (Some "plot.eps") None).
    destruct (C5_display_selection exec resolve granted granted (λ _, true)
                args (Some "real a; a=1;") w "ok"
                ((_ <- stage_cell resolve granted args (Some "real a; a=1;") ;;
                  run_ff_file exec resolve "temp.edp")%py w).2)
      as (_ & Hvector & _).
    + vm_compute. reflexivity.
    + destruct (Hvector eq_refl "plot.eps") as [Hok _].
      * split; [reflexivity | discriminate].
      * destruct Hok as [Hfound _].
        -- exists (File "%!PS-Adobe-3.0"). vm_compute. reflexivity.
        -- reflexivity.
        -- rewrite (Hfound "<svg/>").
           ++ vm_compute. reflexivity.
           ++ vm_compute. reflexivity.
           ++ reflexivity.
           ++ reflexivity.
Defined.

(** The claim of C6 fails when a positional file is given as well: the body
    goes to [out.edp], but the interpreter is spawned on the positional
    file and never on [out.edp]. *)
Lemma C6_counterexample_positional_file_is_run :
  let exec := exec_const (mkProc 0 "" "") in
  let resolve := abspath "/home/user" in
  let args := mkNamespace (Some "other.edp") None None (Some "out") in
  let w := mkWorld {["/home/user/other.edp" := File "real b;"]} [] in
  let final :=
    (freefem exec resolve granted granted (λ _, true) args
       (Some "real a; a=1;") w).2 in
  trace final =
    [Wrote "out.edp" "real a; a=1;";
     Spawned ["FreeFem++"; "-nowait"; "-nw"; "-ne"; "other.edp"];
     Printed ""]
  ∧ Spawned ["FreeFem++"; "-nowait"; "-nw"; "-ne"; "out.edp"] ∉ trace final.
Proof.
  intros exec resolve args w final.
  assert (trace final =
          [Wrote "out.edp" "real a; a=1;";
           Spawned ["FreeFem++"; "-nowait"; "-nw"; "-ne"; "other.edp"];
           Printed ""]) as -> by (vm_compute; reflexivity).
  split; [reflexivity|].
  intros Hin. repeat (apply elem_of_cons in Hin as [Hin|Hin]; [discriminate|]).
  by apply elem_of_nil in Hin.
Qed.

(** C6 as amended, at a cell submitted with [--write=out] alone. *)
Lemma C6_witness :
  let exec := exec_const (mkProc 0 "" "") in
  let resolve := abspath "/home/user" in
  let args := mkNamespace None None None (Some "out") in
  let w := mkWorld ∅ [] in
  let final :=
    (freefem exec resolve granted granted (λ _, true) args
       (Some "real a; a=1;") w).2 in
  (∃ rest,
     trace final =
       trace w ++ Wrote "out.edp" "real a; a=1;"
         :: Spawned ["FreeFem++"; "-nowait"; "-nw"; "-ne"; "out.edp"] :: rest
     ∧ Forall no_fs_event rest)
  ∧ fs final !! "/home/user/out.edp" = Some (File "real a; a=1;").
Proof.
  intros exec resolve args w final.
  destruct (C6_write_out_without_positional exec resolve granted granted
              (λ _, true) args "real a; a=1;" w) as [Hwritten _].
  - reflexivity.
  - reflexivity.
  - destruct (Hwritten (open_write resolve granted "out.edp" "real a; a=1;" w).2)
      as (_ & Htrace & Hafter).
    + vm_compute. reflexivity.
    + split; [exact Htrace|]. apply Hafter. apply exec_const_keeps.
Defined.

(** C10 at a cell submitted with [./temp.edp] as positional file and no write
    root: the body goes to [temp.edp], which is the file the positional path
    names, and the interpreter is spawned on [./temp.edp]. *)
Lemma C10_witness :
  let exec := exec_const (mkProc 0 "" "") in
  let resolve := abspath "/home/user" in
  let args := mkNamespace (Some "./temp.edp") None None None in
  let w := mkWorld ∅ [] in
  ∃ rest,
    trace (freefem exec resolve granted granted (λ _, true) args
             (Some "real a; a=1;") w).2 =
      trace w ++ Wrote "temp.edp" "real a; a=1;"
        :: Spawned ["FreeFem++"; "-nowait"; "-nw"; "-ne"; "./temp.edp"]
        :: rest.
Proof.
  intros exec resolve args w.
  destruct (C10_body_written_despite_positional exec resolve granted granted
              (λ _, true) args "real a; a=1;" "./temp.edp" w)
    as (_ & _ & Hwritten & _).
  - split; [reflexivity | discriminate].
  - destruct (Hwritten
                (open_write resolve granted "temp.edp" "real a; a=1;" w).2)
      as (_ & _ & _ & Hspawn & _).
    + vm_compute. reflexivity.
    + apply Hspawn. exists (File "real a; a=1;"). vm_compute. reflexivity.
Defined.

(** C3 at a batch of two scripts staged on an empty file system. *)
Lemma C3_witness :
  ∃ self w1,
    __init__ "/tmp" long_name
      (CodeList ["real a; a=1;"; "real b; b=2;"]) (mkWorld ∅ []) =
      (Return self, w1)
    ∧ length (ff_files self) = 2
    ∧ NoDup (ff_files self)
    ∧ Forall2 (λ f c, (∃ stem, f = tmp_dir self +:+ "/" +:+ stem +:+ ".edp")
                      ∧ is_under (tmp_dir self) f = true
                      ∧ fs w1 !! f = Some (File c))
              (ff_files self) ["real a; a=1;"; "real b; b=2;"]
    ∧ (∀ p, p = tmp_dir self ∨ is_under (tmp_dir self) p = true →
            fs (with_stmt self (λ _, @raise unit (IOError "interrupted")) w1).2 !! p =
              None).
Proof.
  destruct (C3_staging_creates_and_removes "/tmp" long_name long_name_new
              ["real a; a=1;"; "real b; b=2;"] (mkWorld ∅ []))
    as (self & w1 & Hinit & _ & Hdir & Hlen & Hnd & Hall & _ & Hexit).
  exists self, w1. split_and!; [exact Hinit | exact Hlen | exact Hnd | exact Hall |].
  apply (Hexit unit (λ _, @raise unit (IOError "interrupted"))). exact Hdir.
Defined.

(** * Further properties at concrete inputs, and across environments *)

(** X14.  What a child writes to its standard error never shows: two environments
    whose children agree on exit status, standard output and file system
    make every call site and the whole command behave the same, world
    included. *)
Theorem stderr_is_never_observed exec1 exec2
    resolve open_w_error open_r_error svg_parses :
  (∀ argv files,
     returncode (exec1 argv files).1 = returncode (exec2 argv files).1
     ∧ stdout (exec1 argv files).1 = stdout (exec2 argv files).1
     ∧ (exec1 argv files).2 = (exec2 argv files).2) →
  (∀ op path w, run exec1 resolve op path w = run exec2 resolve op path w)
  ∧ (∀ args cell w,
       freefem exec1 resolve open_w_error open_r_error svg_parses args cell w
       = freefem exec2 resolve open_w_error open_r_error svg_parses args cell w).
Proof.
  intros Hsame.
  assert (Hrun : ∀ op path w,
            run exec1 resolve op path w = run exec2 resolve op path w).
  { intros op path w. destruct (fs w !! resolve path) as [n|] eqn:Hp.
    - rewrite !run_spawned by (rewrite Hp; eauto). unfold runner_value.
      destruct (Hsame (runner_argv op path) (fs w)) as (Hrc & Hout & Hfs).
      simpl. rewrite Hrc, Hout, Hfs. by destruct op.
    - by rewrite !run_missing. }
  split; [done|]. intros args cell w.
  rewrite !freefem_unfold. unfold bind at 1 3.
  destruct (stage_cell _ _ _ _ _) as [[[]|e0] w0]; [|done].
  unfold bind at 1 2.
  change (run_ff_file ?e ?r ?p) with (run e r Interpreter p). rewrite Hrun.
  destruct (run exec2 resolve Interpreter _ _) as [[out|e] w1]; [|done].
  unfold display_step, show_raster, show_vector.
  destruct (args_display args) as [d|], (args_displaysvg args) as [s|];
    repeat case_decide; try done; unfold bind at 1 3;
    change (convert_png ?e ?r ?p) with (run e r ToRaster p);
    change (convert_svg ?e ?r ?p) with (run e r ToVector p);
    by rewrite Hrun.
Qed.

Lemma stderr_is_never_observed_witness :
  let exec1 := exec_const (mkProc 1 "syntax error line 4" "") in
  let exec2 := exec_const (mkProc 1 "syntax error line 4" "core dumped") in
  let resolve := abspath "/home/user" in
  let args := mkNamespace None (Some "plot.eps") None None in
  let w := mkWorld ∅ [] in
  freefem exec1 resolve granted granted (λ _, true) args (Some "real a") w
  = freefem exec2 resolve granted granted (λ _, true) args (Some "real a") w.
Proof.
  intros exec1 exec2 resolve args w.
  destruct (stderr_is_never_observed exec1 exec2 resolve granted granted
              (λ _, true)) as [_ Hff].
  - intros argv files. split_and!; reflexivity.
  - apply Hff.
Defined.

Lemma missing_input_changes_nothing_witness :
  let exec := exec_const (mkProc 0 "" "") in
  let resolve := abspath "/home/user" in
  ∃ e, run exec resolve ToVector "plot.eps" (mkWorld ∅ []) = (Raise e, mkWorld ∅ [])
       ∧ (ToVector = Interpreter → e = IOError ("File not found: " +:+ "plot.eps"))
       ∧ (ToVector ≠ Interpreter →
          e = NameError "global name 'ff_file' is not defined").
Proof.
  intros exec resolve.
  apply (missing_input_changes_nothing exec resolve ToVector "plot.eps"
           (mkWorld ∅ [])).
  reflexivity.
Defined.

Lemma run_return_inversion_witness :
  let exec := exec_const (mkProc 0 "-- FreeFem++ v3" "") in
  let resolve := abspath "/home/user" in
  let w := mkWorld {["/home/user/cell.edp" := File "real a;"]} [] in
  is_Some (fs w !! resolve "./cell.edp")
  ∧ returncode (exec (runner_argv Interpreter "./cell.edp") (fs w)).1 = 0%Z.
Proof.
  intros exec resolve w.
  destruct (run_return_inversion exec resolve Interpreter "./cell.edp" w
              "-- FreeFem++ v3" (run exec resolve Interpreter "./cell.edp" w).2)
    as (Hex & Hrc & _).
  - vm_compute. reflexivity.
  - split; [exact Hex | exact Hrc].
Defined.

Lemma interpreter_failure_stops_dispatch_witness :
  let exec := exec_const (mkProc 2 "syntax error line 4" "") in
  let resolve := abspath "/home/user" in
  let args := mkNamespace None (Some "plot.eps") None None in
  let w := mkWorld {["/home/user/plot.eps" := File "%!PS-Adobe-3.0"]} [] in
  freefem exec resolve granted granted (λ _, true) args (Some "real a") w =
    (Raise (FreeFemException "syntax error line 4"),
     mkWorld (<["/home/user/temp.edp" := File "real a"]> (fs w))
       ([Wrote "temp.edp" "real a"]
          ++ [Spawned ["FreeFem++"; "-nowait"; "-nw"; "-ne"; "temp.edp"]])).
Proof.
  intros exec resolve args w.
  apply (interpreter_failure_stops_dispatch exec resolve granted granted
           (λ _, true) args (Some "real a") w
           (mkProc 2 "syntax error line 4" "")
           (<["/home/user/temp.edp" := File "real a"]> (fs w))).
  - vm_compute. reflexivity.
  - exists (File "real a"). vm_compute. reflexivity.
  - vm_compute. reflexivity.
  - discriminate.
Defined.

Lemma freefem_return_inversion_witness :
  let resolve := abspath "/home/user" in
  let exec := exec_tools resolve in
  let args := mkNamespace None None (Some "plot.eps") None in
  let w := mkWorld {["/home/user/plot.eps" := File "%!PS-Adobe-3.0"]} [] in
  truthy (args_display args) = false
  ∧ ∃ s, given (args_displaysvg args) s ∧ "plot.eps.svg" = s +:+ ".svg".
Proof.
  intros resolve exec args w.
  destruct (freefem_return_inversion exec resolve granted granted (λ _, true)
              args (Some "real a") w (Some (SVG "plot.eps.svg"))
              (freefem exec resolve granted granted (λ _, true) args
                 (Some "real a") w).2)
    as (_ & _ & _ & Hnd & s & Hs & Hp & _).
  - vm_compute. reflexivity.
  - split; [exact Hnd|]. exists s. split; [exact Hs | exact Hp].
Defined.

Lemma line_magic_reruns_last_cell_witness :
  let exec := exec_const (mkProc 0 "ok" "") in
  let resolve := abspath "/home/user" in
  let args := mkNamespace None None None None in
  let w' := (freefem exec resolve granted granted (λ _, true) args
               (Some "real a; a=1;") (mkWorld ∅ [])).2 in
  fs w' !! "/home/user/temp.edp" = Some (File "real a; a=1;")
  ∧ ∃ rest,
      trace (freefem exec resolve granted granted (λ _, true) args None w').2 =
        trace w' ++ Spawned ["FreeFem++"; "-nowait"; "-nw"; "-ne"; "temp.edp"]
                 :: rest.
Proof.
  intros exec resolve args.
  apply (line_magic_reruns_last_cell exec resolve granted granted (λ _, true)
           args "real a; a=1;" args (mkWorld ∅ [])).
  - reflexivity.
  - reflexivity.
  - vm_compute. reflexivity.
  - apply exec_const_keeps.
Defined.

(** Two cells with the write roots [out] and [./out]: one file, which the
    later body takes over. *)
Lemma successive_cells_witness :
  let exec := exec_const (mkProc 0 "ok" "") in
  let resolve := abspath "/home/user" in
  let args1 := mkNamespace None None None (Some "out") in
  let args2 := mkNamespace None None None (Some "./out") in
  let w' := (freefem exec resolve granted granted (λ _, true) args1
               (Some "FIRST") (mkWorld ∅ [])).2 in
  let w'' := (freefem exec resolve granted granted (λ _, true) args2
                (Some "SECOND") w').2 in
  fs w'' !! "/home/user/out.edp" = Some (File "SECOND")
  ∧ resolve "out.edp" = resolve "./out.edp".
Proof.
  intros exec resolve args1 args2 w' w''.
  destruct (successive_cells exec resolve granted granted (λ _, true)
              args1 "FIRST" args2 "SECOND" (mkWorld ∅ []))
    as (_ & _ & Hsame & _).
  - vm_compute. reflexivity.
  - vm_compute. reflexivity.
  - apply exec_const_keeps.
  - apply exec_const_keeps.
  - split; [|vm_compute; reflexivity]. apply Hsame. vm_compute. reflexivity.
Defined.

Lemma staging_disturbs_nothing_witness :
  let w := mkWorld {["/home/user/temp.edp" := File "real a;"]} [] in
  ∃ self w1,
    __init__ "/tmp" long_name (CodeList ["real b;"]) w = (Return self, w1)
    ∧ (∀ p, is_Some (fs w !! p) → fs w1 !! p = fs w !! p)
    ∧ ∃ evs, trace w1 = trace w ++ evs ∧ Forall staging_event evs.
Proof.
  intros w.
  apply (staging_disturbs_nothing "/tmp" long_name long_name_new ["real b;"] w).
Defined.

Lemma staging_round_trip_witness :
  let w := mkWorld {["/home/user/temp.edp" := File "real a;"]} [] in
  fs ((mgr <- __init__ "/tmp" long_name (CodeList ["real b;"; "real c;"]) ;;
       with_stmt mgr (λ _, @raise unit (IOError "interrupted")))%py w).2
  = fs w.
Proof.
  intros w.
  apply (staging_round_trip "/tmp" long_name long_name_new
           ["real b;"; "real c;"] (λ _, @raise unit (IOError "interrupted")) w).
  intros self w'. reflexivity.
Defined.

Lemma successive_stagings_are_disjoint_witness :
  ∃ self1 w1 self2 w2,
    __init__ "/tmp" long_name (CodeList ["real a;"]) (mkWorld ∅ []) =
      (Return self1, w1)
    ∧ __init__ "/tmp" long_name (CodeList ["real b;"]) w1 = (Return self2, w2)
    ∧ tmp_dir self1 ≠ tmp_dir self2
    ∧ (∀ f, f ∈ ff_files self1 → f ∉ ff_files self2)
    ∧ fs w2 !! tmp_dir self1 = Some Dir
    ∧ Forall2 (λ f c, fs w2 !! f = Some (File c)) (ff_files self1) ["real a;"].
Proof.
  apply (successive_stagings_are_disjoint "/tmp" long_name long_name_new
           ["real a;"] ["real b;"] (mkWorld ∅ [])).
Defined.
